(** * Echo Audit: the scoring engine and the storage service

    A shallow embedding of [utils/scoring.ts] (score, WCAG compliance and
    report generation) and of [services/storage.ts] (accounts, login rate
    limiting, projects and audits over a key-value store), followed by the
    properties of the specification that concern them.

    Conventions of the embedding.
    - A JavaScript number that the program computes is an integer or [NaN],
      and JSON text has [null] where a [NaN] was written; it is a [number],
      integers being in [Z].  Lengths are in [nat].
    - The key-value store is [localStorage]: a finite map from string keys,
      built exactly as the template literals of the source build them.
      A stored value is a text written as it is, or the JSON text of an
      object, which is kept as that object with every [NaN] turned into
      [null], as [JSON.stringify] writes it; [JSON.parse] of a value of
      another shape than the reader expects is a failed read (the reader's
      [catch] branch).
    - The clock ([Date.now()], [new Date().toISOString()]), the random
      suffix of generated identifiers, the password hash (PBKDF2 of
      [crypto.subtle]), [String.prototype.toLowerCase] and [JSON.parse] of
      a text that was stored as it is are inputs of the operations that
      use them.
    - An [async] function is a computation over the [World] (the store and
      the in-memory login-attempt table) that returns a value or throws.
    - [getUserProjects], which only reads, is left out. *)

From Stdlib Require Import ZArith Lia Ascii String List Bool Sorted Permutation.
From stdpp Require Import base option list strings gmap pretty.

Local Open Scope string_scope.
Local Open Scope Z_scope.

(** ** Types ([types.ts]) *)

Module Severity.
Definition CRITICAL : string := "critical".
Definition HIGH : string := "high".
Definition MEDIUM : string := "medium".
Definition LOW : string := "low".
End Severity.

(** A number as the program meets it: an integer, [NaN], or the [null] that
    JSON text has in the place of a [NaN]. *)
Inductive number : Type :=
| Num (z : Z)
| NaN
| Null.

Record ComplianceLevel : Type := {
  pass : bool;
  level_violations : nat
}.

Record LevelAAA : Type := { not_tested : bool }.

Record WcagCompliance : Type := {
  level_a : ComplianceLevel;
  level_aa : ComplianceLevel;
  level_aaa : LevelAAA
}.

Record VisualEvidence : Type := {
  frame_timestamp : string;
  ve_description : string;
  frame_image_url : option string
}.

Record CodeEvidence : Type := {
  file : string;
  line : Z;
  snippet : string
}.

Record SuggestedFix : Type := {
  code : string;
  explanation : string
}.

(** [severity] is the value found at run time: one of the four strings of
    the enum, any other string, or [None] when the property is missing. *)
Record Violation : Type := {
  violation_id : option string;
  severity : option string;
  wcag_criterion : string;
  title : string;
  description : string;
  visual_evidence : option VisualEvidence;
  code_evidence : option CodeEvidence;
  reasoning : option string;
  user_impact : string;
  suggested_fix : SuggestedFix
}.

Record AuditSummary : Type := {
  total_violations : nat;
  critical : nat;
  high : nat;
  medium : nat;
  low : nat
}.

Record AuditReport : Type := {
  overall_score : number;
  wcag_compliance : WcagCompliance;
  violations : list Violation;
  summary : AuditSummary;
  analyzed_at : option string
}.

(** ** The scoring engine ([utils/scoring.ts]) *)

(** *** Reading a property of the [weights] object literal *)

(** What [weights[key]] evaluates to: an own numeric property, something
    inherited from [Object.prototype] (a function, or the prototype itself
    for [__proto__]), or [undefined]. *)
Inductive property : Type :=
| PNumber (n : Z)
| PObject
| PUndefined.

Definition Object_prototype_keys : list string :=
  [ "constructor"; "hasOwnProperty"; "isPrototypeOf"; "propertyIsEnumerable";
    "toLocaleString"; "toString"; "valueOf"; "__proto__";
    "__defineGetter__"; "__defineSetter__"; "__lookupGetter__";
    "__lookupSetter__" ].

Definition inherited (key : string) : bool :=
  existsb (String.eqb key) Object_prototype_keys.

(** The key a property access uses: a missing severity is [undefined],
    whose property key is the string "undefined". *)
Definition property_key (sev : option string) : string :=
  match sev with
  | Some s => s
  | None => "undefined"
  end.

Definition weights (key : string) : property :=
  if String.eqb key Severity.CRITICAL then PNumber 15
  else if String.eqb key Severity.HIGH then PNumber 8
  else if String.eqb key Severity.MEDIUM then PNumber 4
  else if String.eqb key Severity.LOW then PNumber 2
  else if inherited key then PObject
  else PUndefined.

(** [p || 0]: a falsy left operand ([undefined], [0]) gives [0]. *)
Definition or_zero (p : property) : property :=
  match p with
  | PNumber n => if n =? 0 then PNumber 0 else PNumber n
  | PObject => PObject
  | PUndefined => PNumber 0
  end.

(** The numeric value of the right operand of [-=]; a function or a plain
    object converts to [NaN]. *)
Definition ToNumber (p : property) : number :=
  match p with
  | PNumber n => Num n
  | PObject => NaN
  | PUndefined => NaN
  end.

(** The numeric value of an operand; [null] counts as 0 and [NaN] has
    none. *)
Definition numeric (a : number) : option Z :=
  match a with
  | Num x => Some x
  | Null => Some 0
  | NaN => None
  end.

Definition minus (a b : number) : number :=
  match numeric a, numeric b with
  | Some x, Some y => Num (x - y)
  | _, _ => NaN
  end.

(** [Math.round] of an integer is that integer; the score never leaves the
    integers because every weight is one. *)
Definition Math_round (a : number) : number :=
  match numeric a with
  | Some x => Num x
  | None => NaN
  end.

Definition Math_max (a b : number) : number :=
  match numeric a, numeric b with
  | Some x, Some y => Num (Z.max x y)
  | _, _ => NaN
  end.

Definition deduct (score : number) (violation : Violation) : number :=
  minus score (ToNumber (or_zero (weights (property_key (severity violation))))).

Definition calculateAccessibilityScore (violations : list Violation) : number :=
  let score := fold_left deduct violations (Num 100) in
  Math_max (Num 0) (Math_round score).

(** *** Regular expressions of the compliance tables

    The three expressions of the source are alternations of patterns that
    are each anchored at the start ([^]) and made of literal characters
    followed, for some, by one character class [[lo-hi]]. *)

Inductive atom : Type :=
| Chr (c : ascii)
| Range (lo hi : ascii).

Fixpoint literal (s : string) : list atom :=
  match s with
  | EmptyString => []
  | String c s' => Chr c :: literal s'
  end.

Definition RegExp : Type := list (list atom).

Definition atom_matches (a : atom) (c : ascii) : bool :=
  match a with
  | Chr d => Ascii.eqb c d
  | Range lo hi =>
      (N_of_ascii lo <=? N_of_ascii c)%N && (N_of_ascii c <=? N_of_ascii hi)%N
  end.

Fixpoint starts_with (p : list atom) (s : string) : bool :=
  match p with
  | [] => true
  | a :: p' =>
      match s with
      | EmptyString => false
      | String c s' => atom_matches a c && starts_with p' s'
      end
  end.

(** [regex.test(s)] for a regex without flags. *)
Definition test (regex : RegExp) (s : string) : bool :=
  existsb (fun p => starts_with p s) regex.

Definition lit (s : string) : list atom := literal s.
Definition cls (s : string) (lo hi : ascii) : list atom :=
  literal s ++ [Range lo hi].

Definition levelA_regex : RegExp :=
  [ lit "1.1.1"; cls "1.2." "1" "3"; cls "1.3." "1" "3"; lit "1.4.1";
    cls "2.1." "1" "2"; cls "2.2." "1" "2"; lit "2.3.1"; cls "2.4." "1" "4";
    lit "3.1.1"; cls "3.2." "1" "2"; cls "3.3." "1" "2"; cls "4.1." "1" "2" ].

Definition levelAA_regex : RegExp :=
  [ cls "1.2." "4" "5"; cls "1.4." "3" "5"; cls "2.4." "5" "7"; lit "3.1.2";
    cls "3.2." "3" "4"; cls "3.3." "3" "4" ].

Definition levelAAA_regex : RegExp :=
  [ cls "1.2." "6" "9"; cls "1.4." "6" "9"; cls "2.2." "3" "6";
    cls "2.3." "2" "3"; lit "2.4.8"; lit "2.4.9"; lit "2.4.10";
    cls "3.1." "3" "6"; lit "3.2.5"; cls "3.3." "5" "6" ].

Definition checkLevel (violations : list Violation) (regex : RegExp)
  : list Violation :=
  List.filter (fun v => test regex (wcag_criterion v)) violations.

Definition determineWCAGCompliance (violations : list Violation)
  : WcagCompliance :=
  let levelAViolations := checkLevel violations levelA_regex in
  let levelAAViolations := checkLevel violations levelAA_regex in
  let levelAAAViolations := checkLevel violations levelAAA_regex in
  {| level_a :=
       {| pass := Nat.eqb (length levelAViolations) 0;
          level_violations := length levelAViolations |};
     level_aa :=
       {| pass := Nat.eqb (length levelAViolations) 0
                  && Nat.eqb (length levelAAViolations) 0;
          level_violations := length levelAAViolations |};
     level_aaa := {| not_tested := true |} |}.

(** [v.severity === Severity.X] *)
Definition has_severity (sev : string) (v : Violation) : bool :=
  match severity v with
  | Some s => String.eqb s sev
  | None => false
  end.

(** [analyzed_at] is the clock reading [new Date().toISOString()]. *)
Definition generateAuditReport (analyzedAt : string)
    (violations : list Violation) : AuditReport :=
  let overall_score := calculateAccessibilityScore violations in
  let wcag_compliance := determineWCAGCompliance violations in
  let summary :=
    {| total_violations := length violations;
       critical := length (List.filter (has_severity Severity.CRITICAL) violations);
       high := length (List.filter (has_severity Severity.HIGH) violations);
       medium := length (List.filter (has_severity Severity.MEDIUM) violations);
       low := length (List.filter (has_severity Severity.LOW) violations) |} in
  {| overall_score := overall_score;
     wcag_compliance := wcag_compliance;
     violations := violations;
     summary := summary;
     analyzed_at := Some analyzedAt |}.

(** ** Stored records ([types.ts]) *)

Record User : Type := {
  userId : string;
  email : string;
  passwordHash : string;
  displayName : string;
  createdAt : string;
  lastLoginAt : string
}.

Record Project : Type := {
  projectId : string;
  project_userId : string;
  projectName : string;
  websiteUrl : option string;
  project_description : option string;
  project_createdAt : string;
  updatedAt : string;
  auditCount : Z;
  latestScore : number
}.

Record WcagLevels : Type := {
  levelA : bool;
  levelAA : bool;
  levelAAA : bool
}.

Record BySeverity : Type := {
  by_critical : nat;
  by_high : nat;
  by_medium : nat;
  by_low : nat
}.

Record AuditRecord : Type := {
  auditId : string;
  audit_projectId : string;
  audit_userId : string;
  auditVersion : Z;
  timestamp : string;
  accessibilityScore : number;
  wcagCompliance : WcagLevels;
  totalViolations : nat;
  violationsBySeverity : BySeverity;
  fullReport : AuditReport;
  notes : option string
}.

(** [Partial<Project>]: every field may be absent. *)
Record ProjectUpdates : Type := {
  upd_projectId : option string;
  upd_userId : option string;
  upd_projectName : option string;
  upd_websiteUrl : option string;
  upd_description : option string;
  upd_createdAt : option string;
  upd_auditCount : option Z;
  upd_latestScore : option number
}.

(** The object under the key [current_session]; [JSON.stringify] leaves
    out a [userId] that is [undefined]. *)
Record Session : Type := {
  session_userId : option string;
  lastActivity : Z;
  csrfToken : string
}.

(** What [JSON.parse] makes of a text that was stored as it is, as far as
    [getCurrentUser] looks at it: the parse throws, or gives a string, or
    [null], or any other JSON value.  Of such a value, [userId] is its
    [userId] property as a template literal renders it, absent for a
    number, a boolean, an array or an object without one, and
    [lastActivity] is the number [sessionData.lastActivity || 0], which
    is 0 for a value without that property. *)
Inductive ParsedText : Type :=
| Unparsable
| ParsedString (s : string)
| ParsedNull
| ParsedOther (userId : option string) (lastActivity : Z).

(** ** The world of the storage service ([services/storage.ts]) *)

(** What a key of [localStorage] holds: a string written as it is (the
    user id under an email key, a legacy session), or the JSON text of a
    record, of an array of ids or of a session. *)
Inductive value : Type :=
| VString (s : string)
| VUser (u : User)
| VProject (p : Project)
| VAudit (a : AuditRecord)
| VIds (ids : list string)
| VSession (s : Session).

Record Attempt : Type := {
  count : nat;
  lastAttempt : Z
}.

Record World : Type := {
  localStorage : gmap string value;
  loginAttempts : gmap string Attempt
}.

Definition MAX_LOGIN_ATTEMPTS : nat := 5.
Definition LOCKOUT_DURATION : Z := 15 * 60 * 1000.
Definition SESSION_TIMEOUT : Z := 24 * 60 * 60 * 1000.

(** The errors the service throws, and the text each one carries. *)
Inductive Error : Type :=
| NotFound
| SyntaxError
| AccountExists
| TooManyAttempts (minutesLeft : Z)
| InvalidEmailOrPassword
| ProjectNotFound
| Unauthorized.

Definition message (e : Error) : string :=
  match e with
  | NotFound => "Not found"
  | SyntaxError => "Unexpected token in JSON"
  | AccountExists => "An account with this email already exists"
  | TooManyAttempts minutesLeft =>
      "Too many login attempts. Please try again in "
        +:+ pretty minutesLeft +:+ " minutes."
  | InvalidEmailOrPassword => "Invalid email or password"
  | ProjectNotFound => "Project not found"
  | Unauthorized => "Unauthorized"
  end.

(** *** Computations that return or throw *)

Inductive outcome (A : Type) : Type :=
| Return (a : A)
| Throw (e : Error).
Arguments Return {A} a.
Arguments Throw {A} e.

Definition M (A : Type) : Type := World -> outcome A * World.

Definition ret {A : Type} (a : A) : M A := fun w => (Return a, w).

Definition throw {A : Type} (e : Error) : M A := fun w => (Throw e, w).

Definition bind {A B : Type} (m : M A) (k : A -> M B) : M B :=
  fun w =>
    match m w with
    | (Return a, w') => k a w'
    | (Throw e, w') => (Throw e, w')
    end.

(** [try { m } catch (e) { h e }]; what [m] wrote before it threw stays. *)
Definition try_catch {A : Type} (m : M A) (h : Error -> M A) : M A :=
  fun w =>
    match m w with
    | (Return a, w') => (Return a, w')
    | (Throw e, w') => h e w'
    end.

Notation "x <- m ;; k" := (bind m (fun x => k))
  (at level 100, m at next level, right associativity).
Notation "m ;;; k" := (bind m (fun _ => k))
  (at level 100, right associativity).

Fixpoint for_of {A : Type} (l : list A) (body : A -> M unit) : M unit :=
  match l with
  | [] => ret tt
  | x :: l' => body x ;;; for_of l' body
  end.

(** *** The storage polyfill *)

Module storageAPI.
Definition get (key : string) : M value :=
  fun w =>
    match localStorage w !! key with
    | Some val => (Return val, w)
    | None => (Throw NotFound, w)
    end.

Definition set (key : string) (val : value) : M unit :=
  fun w =>
    (Return tt,
     {| localStorage := <[key := val]> (localStorage w);
        loginAttempts := loginAttempts w |}).

Definition delete (key : string) : M unit :=
  fun w =>
    (Return tt,
     {| localStorage := base.delete key (localStorage w);
        loginAttempts := loginAttempts w |}).
End storageAPI.

(** The [Map] of login attempts. *)
Module attempts.
Definition get (key : string) : M (option Attempt) :=
  fun w => (Return (loginAttempts w !! key), w).

Definition set (key : string) (a : Attempt) : M unit :=
  fun w =>
    (Return tt,
     {| localStorage := localStorage w;
        loginAttempts := <[key := a]> (loginAttempts w) |}).

Definition delete (key : string) : M unit :=
  fun w =>
    (Return tt,
     {| localStorage := localStorage w;
        loginAttempts := base.delete key (loginAttempts w) |}).
End attempts.

(** *** JSON text

    A [value] stands for the JSON text of the object it holds.  JSON text
    has no [NaN]: [JSON.stringify] writes [null] in its place, and that is
    what [JSON.parse] gives back. *)

Definition JSON_number (n : number) : number :=
  match n with
  | NaN => Null
  | _ => n
  end.

Definition json_report (r : AuditReport) : AuditReport :=
  {| overall_score := JSON_number (overall_score r);
     wcag_compliance := wcag_compliance r;
     violations := violations r;
     summary := summary r;
     analyzed_at := analyzed_at r |}.

Definition json_audit (a : AuditRecord) : AuditRecord :=
  {| auditId := auditId a;
     audit_projectId := audit_projectId a;
     audit_userId := audit_userId a;
     auditVersion := auditVersion a;
     timestamp := timestamp a;
     accessibilityScore := JSON_number (accessibilityScore a);
     wcagCompliance := wcagCompliance a;
     totalViolations := totalViolations a;
     violationsBySeverity := violationsBySeverity a;
     fullReport := json_report (fullReport a);
     notes := notes a |}.

Definition json_project (p : Project) : Project :=
  {| projectId := projectId p;
     project_userId := project_userId p;
     projectName := projectName p;
     websiteUrl := websiteUrl p;
     project_description := project_description p;
     project_createdAt := project_createdAt p;
     updatedAt := updatedAt p;
     auditCount := auditCount p;
     latestScore := JSON_number (latestScore p) |}.

(** [JSON.stringify(x)] and [JSON.parse(result.value)], the latter read at
    the type the caller gives it. *)
Module JSON.
Definition stringify_User (u : User) : value := VUser u.
Definition stringify_Project (p : Project) : value := VProject (json_project p).
Definition stringify_AuditRecord (a : AuditRecord) : value :=
  VAudit (json_audit a).
Definition stringify_ids (ids : list string) : value := VIds ids.
Definition stringify_Session (s : Session) : value := VSession s.
Definition parse_User (v : value) : M User :=
  match v with VUser u => ret u | _ => throw SyntaxError end.
Definition parse_Project (v : value) : M Project :=
  match v with VProject p => ret (json_project p) | _ => throw SyntaxError end.
Definition parse_AuditRecord (v : value) : M AuditRecord :=
  match v with VAudit a => ret (json_audit a) | _ => throw SyntaxError end.
Definition parse_ids (v : value) : M (list string) :=
  match v with VIds ids => ret ids | _ => throw SyntaxError end.
End JSON.

(** [result.value] used as it is, without [JSON.parse].  Under a key that
    holds JSON text the source would take that text for a user id, one
    that no user record has; the read fails here at once, with the same
    [catch] branch taking over. *)
Definition raw_value (v : value) : M string :=
  match v with VString s => ret s | _ => throw SyntaxError end.

(** *** Keys *)

Definition user_key (userId : string) : string := "user:" +:+ userId.
Definition user_email_key (emailLower : string) : string :=
  "user_email:" +:+ emailLower.
Definition project_key (projectId : string) : string :=
  "project:" +:+ projectId.
Definition user_projects_key (userId : string) : string :=
  "user_projects:" +:+ userId.
Definition audit_key (auditId : string) : string := "audit:" +:+ auditId.
Definition project_audits_key (projectId : string) : string :=
  "project_audits:" +:+ projectId.

(** *** Security utilities *)

Fixpoint replace_all (c : ascii) (by_ : string) (input : string) : string :=
  match input with
  | EmptyString => EmptyString
  | String d rest =>
      if Ascii.eqb d c then by_ +:+ replace_all c by_ rest
      else String d (replace_all c by_ rest)
  end.

Definition sanitizeInput (input : string) : string :=
  replace_all "/" "&#x2F;"
    (replace_all "'" "&#x27;"
       (replace_all "034" "&quot;"
          (replace_all ">" "&gt;"
             (replace_all "<" "&lt;" input)))).

Definition lower_ascii (c : ascii) : ascii :=
  let n := N_of_ascii c in
  if ((65 <=? n) && (n <=? 90))%N then ascii_of_N (n + 32) else c.

(** [String.prototype.toLowerCase] as it acts on a string of ASCII
    characters; the stand-in for it in the sample runs, whose strings are
    ASCII. *)
Fixpoint ascii_toLowerCase (s : string) : string :=
  match s with
  | EmptyString => EmptyString
  | String c rest => String (lower_ascii c) (ascii_toLowerCase rest)
  end.

(** [Math.ceil(a / b)] for integers [a] and [b > 0]. *)
Definition Math_ceil_div (a b : Z) : Z := - ((- a) / b).

(** [Array.prototype.sort] with the comparator
    [(a, b) => b.auditVersion - a.auditVersion]: a stable sort, most recent
    version first. *)
Fixpoint insert_by_version (a : AuditRecord) (l : list AuditRecord)
  : list AuditRecord :=
  match l with
  | [] => [a]
  | b :: l' =>
      if auditVersion b - auditVersion a <=? 0 then a :: b :: l'
      else b :: insert_by_version a l'
  end.

Definition sort_by_version_desc (l : list AuditRecord) : list AuditRecord :=
  fold_right insert_by_version [] l.

Definition merge_updates (updatedAtISO : string) (project : Project)
    (updates : ProjectUpdates) : Project :=
  {| projectId := default (projectId project) (upd_projectId updates);
     project_userId := default (project_userId project) (upd_userId updates);
     projectName := default (projectName project) (upd_projectName updates);
     websiteUrl :=
       match upd_websiteUrl updates with
       | Some url => Some url
       | None => websiteUrl project
       end;
     project_description :=
       match upd_description updates with
       | Some d => Some d
       | None => project_description project
       end;
     project_createdAt :=
       default (project_createdAt project) (upd_createdAt updates);
     updatedAt := updatedAtISO;
     auditCount := default (auditCount project) (upd_auditCount updates);
     latestScore := default (latestScore project) (upd_latestScore updates) |}.

Definition sanitize_updates (updates : ProjectUpdates) : ProjectUpdates :=
  {| upd_projectId := upd_projectId updates;
     upd_userId := upd_userId updates;
     upd_projectName := sanitizeInput <$> upd_projectName updates;
     upd_websiteUrl := sanitizeInput <$> upd_websiteUrl updates;
     upd_description := sanitizeInput <$> upd_description updates;
     upd_createdAt := upd_createdAt updates;
     upd_auditCount := upd_auditCount updates;
     upd_latestScore := upd_latestScore updates |}.

(** [x ? sanitizeInput(x) : undefined]; the empty string is falsy. *)
Definition sanitize_optional (x : option string) : option string :=
  match x with
  | Some s => if String.eqb s "" then None else Some (sanitizeInput s)
  | None => None
  end.

(** The updates [{ auditCount, latestScore }] that [saveAudit] passes. *)
Definition audit_updates (auditCount : Z) (latestScore : number)
  : ProjectUpdates :=
  {| upd_projectId := None; upd_userId := None; upd_projectName := None;
     upd_websiteUrl := None; upd_description := None; upd_createdAt := None;
     upd_auditCount := Some auditCount;
     upd_latestScore := Some latestScore |}.

(** [user.lastLoginAt = iso] *)
Definition set_lastLoginAt (user : User) (iso : string) : User :=
  {| userId := userId user;
     email := email user;
     passwordHash := passwordHash user;
     displayName := displayName user;
     createdAt := createdAt user;
     lastLoginAt := iso |}.

(** [audit.notes = notes] *)
Definition set_notes (audit : AuditRecord) (text : string) : AuditRecord :=
  {| auditId := auditId audit;
     audit_projectId := audit_projectId audit;
     audit_userId := audit_userId audit;
     auditVersion := auditVersion audit;
     timestamp := timestamp audit;
     accessibilityScore := accessibilityScore audit;
     wcagCompliance := wcagCompliance audit;
     totalViolations := totalViolations audit;
     violationsBySeverity := violationsBySeverity audit;
     fullReport := fullReport audit;
     notes := Some text |}.

(** The object literal [audit] of [saveAudit]. *)
Definition new_audit (auditId projectId userId : string) (auditVersion : Z)
    (timestampISO : string) (deterministicReport : AuditReport)
  : AuditRecord :=
  {| auditId := auditId;
     audit_projectId := projectId;
     audit_userId := userId;
     auditVersion := auditVersion;
     timestamp := timestampISO;
     accessibilityScore := overall_score deterministicReport;
     wcagCompliance :=
       {| levelA := pass (level_a (wcag_compliance deterministicReport));
          levelAA := pass (level_aa (wcag_compliance deterministicReport));
          levelAAA :=
            negb (not_tested (level_aaa (wcag_compliance deterministicReport))) |};
     totalViolations := total_violations (summary deterministicReport);
     violationsBySeverity :=
       {| by_critical := critical (summary deterministicReport);
          by_high := high (summary deterministicReport);
          by_medium := medium (summary deterministicReport);
          by_low := low (summary deterministicReport) |};
     fullReport := deterministicReport;
     notes := Some "" |}.

Section Storage.

(** [String.prototype.toLowerCase], which lowers every cased letter. *)
Variable toLowerCase : string -> string.

(** [JSON.parse] of a text that was stored as it is. *)
Variable JSON_parse_text : string -> ParsedText.

(** PBKDF2-SHA256 with the fixed salt, rendered in hexadecimal. *)
Variable hashPassword : string -> string.

(** *** User authentication *)

(** The [throw] of the conflict error stands inside the [try], as in the
    source. *)
Definition createUser (now : Z) (random : string)
    (createdAtISO lastLoginAtISO : string)
    (email password displayName : string) : M User :=
  let emailKey := user_email_key (toLowerCase email) in
  try_catch
    (_ <- storageAPI.get emailKey ;;
     throw AccountExists)
    (fun _ => ret tt) ;;;
  let userId := "user_" +:+ pretty now +:+ "_" +:+ random in
  let passwordHash := hashPassword password in
  let user :=
    {| userId := userId;
       email := toLowerCase email;
       passwordHash := passwordHash;
       displayName := sanitizeInput displayName;
       createdAt := createdAtISO;
       lastLoginAt := lastLoginAtISO |} in
  storageAPI.set (user_key userId) (JSON.stringify_User user) ;;;
  storageAPI.set emailKey (VString userId) ;;;
  ret user.

(** The block "Check rate limiting" that opens [loginUser]. *)
Definition check_rate_limit (now : Z) (emailLower : string) : M unit :=
  attempts <- attempts.get emailLower ;;
  match attempts with
  | Some attempts =>
      if (MAX_LOGIN_ATTEMPTS <=? count attempts)%nat then
        let timeSinceLast := now - lastAttempt attempts in
        if timeSinceLast <? LOCKOUT_DURATION then
          let minutesLeft :=
            Math_ceil_div (LOCKOUT_DURATION - timeSinceLast) 60000 in
          throw (TooManyAttempts minutesLeft)
        else attempts.delete emailLower
      else ret tt
  | None => ret tt
  end.

(** The test [if (!userResult)] of the source never fires: [storageAPI.get]
    returns an object or throws.  [now] is the one reading of [Date.now()]
    and [lastLoginAtISO] the clock of a successful login. *)
Definition loginUser (now : Z) (lastLoginAtISO : string)
    (email password : string) : M User :=
  let emailLower := toLowerCase email in
  check_rate_limit now emailLower ;;;
  let emailKey := user_email_key emailLower in
  try_catch
    (userIdResult <- storageAPI.get emailKey ;;
     userId <- raw_value userIdResult ;;
     userResult <- storageAPI.get (user_key userId) ;;
     user <- JSON.parse_User userResult ;;
     let hash := hashPassword password in
     if negb (String.eqb hash (passwordHash user)) then
       throw InvalidEmailOrPassword
     else
       attempts.delete emailLower ;;;
       let user := set_lastLoginAt user lastLoginAtISO in
       storageAPI.set (user_key userId) (JSON.stringify_User user) ;;;
       ret user)
    (fun _ =>
       current <- attempts.get emailLower ;;
       let current :=
         default {| count := 0; lastAttempt := 0 |} current in
       attempts.set emailLower
         {| count := count current + 1; lastAttempt := now |} ;;;
       throw InvalidEmailOrPassword).

(** The body of [setCurrentUser]; [getCurrentUser] can reach it with a
    [userId] that is [undefined], which [JSON.stringify] leaves out. *)
Definition store_session (now : Z) (token : string) (userId : option string)
  : M unit :=
  let sessionData :=
    {| session_userId := userId; lastActivity := now; csrfToken := token |} in
  storageAPI.set "current_session" (JSON.stringify_Session sessionData).

Definition setCurrentUser (now : Z) (token : string) (userId : string)
  : M unit :=
  store_session now token (Some userId).

Definition logout : M unit := storageAPI.delete "current_session".

(** [JSON.parse(sessionResult.value)], as far as [getCurrentUser] looks at
    the result. *)
Definition session_data (sessionResult : value) : ParsedText :=
  match sessionResult with
  | VString text => JSON_parse_text text
  | VSession s => ParsedOther (session_userId s) (lastActivity s)
  | VUser u => ParsedOther (Some (userId u)) 0
  | VProject p => ParsedOther (Some (project_userId p)) 0
  | VAudit a => ParsedOther (Some (audit_userId a)) 0
  | VIds _ => ParsedOther None 0
  end.

(** How a template literal renders a [userId] that may be [undefined]. *)
Definition template_userId (userId : option string) : string :=
  match userId with
  | Some s => s
  | None => "undefined"
  end.

(** [now] is the clock read for the expiry test, [refreshedAt] and
    [token] are the clock and the token of the refreshed session.  The
    inner computation gives [None] where the source returns [null]
    early.  A parse that throws, and a parsed [null], whose [userId]
    cannot be read, both end in the inner [catch], which takes the stored
    text for the user id. *)
Definition getCurrentUser (now refreshedAt : Z) (token : string)
  : M (option User) :=
  try_catch
    (sessionResult <- storageAPI.get "current_session" ;;
     userId <-
       match session_data sessionResult with
       | ParsedString legacy => ret (Some legacy)
       | ParsedOther userId lastActivity =>
           let timeSinceActivity := now - lastActivity in
           if SESSION_TIMEOUT <? timeSinceActivity then
             logout ;;; ret None
           else
             store_session refreshedAt token userId ;;;
             ret (Some (template_userId userId))
       | Unparsable | ParsedNull =>
           userId <- raw_value sessionResult ;;
           ret (Some userId)
       end ;;
     match userId with
     | None => ret None
     | Some userId =>
         userResult <- storageAPI.get (user_key userId) ;;
         user <- JSON.parse_User userResult ;;
         ret (Some user)
     end)
    (fun _ => ret None).

(** *** Project management *)

Definition createProject (now : Z) (random : string)
    (createdAtISO updatedAtISO : string)
    (userId projectName : string) (websiteUrl description : option string)
  : M Project :=
  let projectId := "proj_" +:+ pretty now +:+ "_" +:+ random in
  let project :=
    {| projectId := projectId;
       project_userId := userId;
       projectName := sanitizeInput projectName;
       websiteUrl := sanitize_optional websiteUrl;
       project_description := sanitize_optional description;
       project_createdAt := createdAtISO;
       updatedAt := updatedAtISO;
       auditCount := 0;
       latestScore := Num 0 |} in
  storageAPI.set (project_key projectId) (JSON.stringify_Project project) ;;;
  let userProjectsKey := user_projects_key userId in
  try_catch
    (existing <- storageAPI.get userProjectsKey ;;
     projectIds <- JSON.parse_ids existing ;;
     storageAPI.set userProjectsKey
       (JSON.stringify_ids (projectIds ++ [projectId])%list))
    (fun _ => storageAPI.set userProjectsKey (JSON.stringify_ids [projectId])) ;;;
  ret project.

Definition getProject (projectId : string) : M (option Project) :=
  try_catch
    (result <- storageAPI.get (project_key projectId) ;;
     project <- JSON.parse_Project result ;;
     ret (Some project))
    (fun _ => ret None).

Definition updateProject (updatedAtISO : string) (projectId : string)
    (updates : ProjectUpdates) : M unit :=
  project <- getProject projectId ;;
  match project with
  | None => throw ProjectNotFound
  | Some project =>
      let sanitizedUpdates := sanitize_updates updates in
      let updatedProject :=
        merge_updates updatedAtISO project sanitizedUpdates in
      storageAPI.set (project_key projectId)
        (JSON.stringify_Project updatedProject)
  end.

(** *** Audit management *)

(** The loop over the index: an id whose record is missing or does not
    parse is skipped. *)
Fixpoint collect_audits (auditIds : list string) (audits : list AuditRecord)
  : M (list AuditRecord) :=
  match auditIds with
  | [] => ret audits
  | auditId :: rest =>
      audits' <-
        try_catch
          (auditResult <- storageAPI.get (audit_key auditId) ;;
           audit <- JSON.parse_AuditRecord auditResult ;;
           ret (audits ++ [audit])%list)
          (fun _ => ret audits) ;;
      collect_audits rest audits'
  end.

Definition getProjectAudits (projectId : string) : M (list AuditRecord) :=
  let projectAuditsKey := project_audits_key projectId in
  try_catch
    (result <- storageAPI.get projectAuditsKey ;;
     auditIds <- JSON.parse_ids result ;;
     audits <- collect_audits auditIds [] ;;
     ret (sort_by_version_desc audits))
    (fun _ => ret []).

Definition deleteProject (projectId userId : string) : M unit :=
  audits <- getProjectAudits projectId ;;
  for_of audits
    (fun audit => storageAPI.delete (audit_key (auditId audit))) ;;;
  storageAPI.delete (project_audits_key projectId) ;;;
  storageAPI.delete (project_key projectId) ;;;
  let userProjectsKey := user_projects_key userId in
  try_catch
    (result <- storageAPI.get userProjectsKey ;;
     projectIds <- JSON.parse_ids result ;;
     let filtered :=
       List.filter (fun id => negb (String.eqb id projectId)) projectIds in
     storageAPI.set userProjectsKey (JSON.stringify_ids filtered))
    (fun _ => ret tt).

Definition saveAudit (now : Z) (random : string)
    (analyzedAtISO timestampISO updatedAtISO : string)
    (projectId userId : string) (auditReport : AuditReport)
  : M AuditRecord :=
  project <- getProject projectId ;;
  match project with
  | None => throw ProjectNotFound
  | Some project =>
      if negb (String.eqb (project_userId project) userId) then
        throw Unauthorized
      else
        let auditVersion := auditCount project + 1 in
        let auditId := "aud_" +:+ pretty now +:+ "_" +:+ random in
        let deterministicReport :=
          generateAuditReport analyzedAtISO (violations auditReport) in
        let audit :=
          new_audit auditId projectId userId auditVersion timestampISO
            deterministicReport in
        storageAPI.set (audit_key auditId) (JSON.stringify_AuditRecord audit) ;;;
        let projectAuditsKey := project_audits_key projectId in
        try_catch
          (existing <- storageAPI.get projectAuditsKey ;;
           auditIds <- JSON.parse_ids existing ;;
           storageAPI.set projectAuditsKey
             (JSON.stringify_ids (auditIds ++ [auditId])%list))
          (fun _ =>
             storageAPI.set projectAuditsKey (JSON.stringify_ids [auditId])) ;;;
        updateProject updatedAtISO projectId
          (audit_updates auditVersion (accessibilityScore audit)) ;;;
        ret audit
  end.

Definition getAudit (auditId : string) : M (option AuditRecord) :=
  try_catch
    (result <- storageAPI.get (audit_key auditId) ;;
     audit <- JSON.parse_AuditRecord result ;;
     ret (Some audit))
    (fun _ => ret None).

Definition updateAuditNotes (auditId notes : string) : M unit :=
  result <- storageAPI.get (audit_key auditId) ;;
  audit <- JSON.parse_AuditRecord result ;;
  storageAPI.set (audit_key auditId)
    (JSON.stringify_AuditRecord (set_notes audit (sanitizeInput notes))).

Definition deleteAudit (auditId projectId : string) : M unit :=
  storageAPI.delete (audit_key auditId) ;;;
  let projectAuditsKey := project_audits_key projectId in
  try_catch
    (result <- storageAPI.get projectAuditsKey ;;
     auditIds <- JSON.parse_ids result ;;
     let filtered :=
       List.filter (fun id => negb (String.eqb id auditId)) auditIds in
     storageAPI.set projectAuditsKey (JSON.stringify_ids filtered))
    (fun _ => ret tt).

End Storage.

(** * Vocabulary of the properties *)

(** ** The score, as the specification words it *)

(** The weight table as the specification words it: 15, 8, 4, 2 for the
    four severities and 0 for anything else, a missing severity included. *)
Definition spec_weight (sev : option string) : Z :=
  match sev with
  | Some s =>
      if String.eqb s "critical" then 15
      else if String.eqb s "high" then 8
      else if String.eqb s "medium" then 4
      else if String.eqb s "low" then 2
      else 0
  | None => 0
  end.

Definition spec_penalty (violations : list Violation) : Z :=
  fold_right (fun v acc => spec_weight (severity v) + acc) 0 violations.

(** [max(0, round(100 - sum of weights))]; the sum is an integer, which
    rounding leaves as it is. *)
Definition spec_score (violations : list Violation) : Z :=
  Z.max 0 (100 - spec_penalty violations).

(** A violation that carries nothing but a severity and a criterion. *)
Definition violation_of (sev : option string) (criterion : string)
  : Violation :=
  {| violation_id := None;
     severity := sev;
     wcag_criterion := criterion;
     title := "";
     description := "";
     visual_evidence := None;
     code_evidence := None;
     reasoning := None;
     user_impact := "";
     suggested_fix := {| code := ""; explanation := "" |} |}.

(** The severity is not the name of a property that every object inherits. *)
Definition plain_severity (v : Violation) : Prop :=
  inherited (property_key (severity v)) = false.

(** ** Reading the store *)

(** The project that [getProject] finds. *)
Definition stored_project (w : World) (projectId : string) : option Project :=
  match localStorage w !! project_key projectId with
  | Some (VProject p) => Some (json_project p)
  | _ => None
  end.

(** The ids an index key holds; none when the key is missing or does not
    parse. *)
Definition stored_ids (w : World) (key : string) : list string :=
  match localStorage w !! key with
  | Some (VIds ids) => ids
  | _ => []
  end.

(** The world after [storageAPI.set key val]. *)
Definition write (key : string) (val : value) (w : World) : World :=
  {| localStorage := <[key := val]> (localStorage w);
     loginAttempts := loginAttempts w |}.

(** The world after [storageAPI.delete key]. *)
Definition erase (key : string) (w : World) : World :=
  {| localStorage := delete key (localStorage w);
     loginAttempts := loginAttempts w |}.

(** The record that [saveAudit] builds for a project and a violation list. *)
Definition saved (now : Z) (random analyzedAtISO timestampISO : string)
    (projectId userId : string) (project : Project)
    (violations : list Violation) : AuditRecord :=
  new_audit ("aud_" +:+ pretty now +:+ "_" +:+ random) projectId userId
    (auditCount project + 1) timestampISO
    (generateAuditReport analyzedAtISO violations).

(** ** Sample data *)

Definition alice_project : Project :=
  {| projectId := "proj_1_shop";
     project_userId := "user_1_alice";
     projectName := "Shop";
     websiteUrl := None;
     project_description := None;
     project_createdAt := "2024-01-01T00:00:00.000Z";
     updatedAt := "2024-01-01T00:00:00.000Z";
     auditCount := 0;
     latestScore := Num 0 |}.

(** A world in which alice owns one project that has no audit yet. *)
Definition world_with_project : World :=
  {| localStorage :=
       <[project_key "proj_1_shop" := VProject alice_project]>
         (<[user_projects_key "user_1_alice" := VIds ["proj_1_shop"]]> ∅);
     loginAttempts := ∅ |}.

(** A report that claims a perfect score next to a critical violation. *)
Definition forged_report : AuditReport :=
  {| overall_score := Num 100;
     wcag_compliance :=
       {| level_a := {| pass := true; level_violations := 0 |};
          level_aa := {| pass := true; level_violations := 0 |};
          level_aaa := {| not_tested := true |} |};
     violations := [violation_of (Some "critical") "1.4.3"];
     summary :=
       {| total_violations := 0; critical := 0; high := 0; medium := 0;
          low := 0 |};
     analyzed_at := None |}.

(** A report whose one violation carries the severity "constructor". *)
Definition constructor_report : AuditReport :=
  {| overall_score := Num 100;
     wcag_compliance :=
       {| level_a := {| pass := true; level_violations := 0 |};
          level_aa := {| pass := true; level_violations := 0 |};
          level_aaa := {| not_tested := true |} |};
     violations := [violation_of (Some "constructor") "1.1.1"];
     summary :=
       {| total_violations := 1; critical := 0; high := 0; medium := 0;
          low := 0 |};
     analyzed_at := None |}.

(** ** Login attempts *)

(** The world after [loginAttempts.delete(emailLower)]. *)
Definition forget (emailLower : string) (w : World) : World :=
  {| localStorage := localStorage w;
     loginAttempts := delete emailLower (loginAttempts w) |}.

(** The world after the [catch] branch of [loginUser] has counted a
    failed attempt. *)
Definition record_failure (now : Z) (emailLower : string) (w : World)
  : World :=
  {| localStorage := localStorage w;
     loginAttempts :=
       <[emailLower :=
           {| count :=
                count (default {| count := 0; lastAttempt := 0 |}
                         (loginAttempts w !! emailLower)) + 1;
              lastAttempt := now |}]> (loginAttempts w) |}.

(** The tracked count has reached the threshold and the last failed
    attempt is less than the lockout duration old. *)
Definition rate_limited (now : Z) (emailLower : string) (w : World) : bool :=
  match loginAttempts w !! emailLower with
  | Some a =>
      (MAX_LOGIN_ATTEMPTS <=? count a)%nat
      && (now - lastAttempt a <? LOCKOUT_DURATION)
  | None => false
  end.

(** The user id and the record that the [try] block of [loginUser] reads
    for an email, when both reads succeed. *)
Definition account (w : World) (emailLower : string) : option (string * User) :=
  match localStorage w !! user_email_key emailLower with
  | Some (VString userId) =>
      match localStorage w !! user_key userId with
      | Some (VUser user) => Some (userId, user)
      | _ => None
      end
  | _ => None
  end.

(** What [loginUser] does once the rate limit has let the attempt pass. *)
Definition verify (hashPassword : string -> string) (now : Z) (iso : string)
    (e password : string) (w : World) : outcome User * World :=
  match account w e with
  | Some (userId, user) =>
      if String.eqb (hashPassword password) (passwordHash user) then
        (Return (set_lastLoginAt user iso),
         write (user_key userId) (VUser (set_lastLoginAt user iso))
           (forget e w))
      else (Throw InvalidEmailOrPassword, record_failure now e w)
  | None => (Throw InvalidEmailOrPassword, record_failure now e w)
  end.

(** A stand-in for [JSON.parse] of stored text in the sample runs, where
    the only text stored as it is under the session key is a bare user id
    such as user_1_alice, which is not JSON. *)
Definition sample_parse_text (text : string) : ParsedText := Unparsable.

(** A stand-in for PBKDF2 in the sample runs. *)
Definition sample_hash (password : string) : string := "pbkdf2:" +:+ password.

Definition alice : User :=
  {| userId := "user_1_alice";
     email := "alice@example.com";
     passwordHash := sample_hash "correct horse";
     displayName := "Alice";
     createdAt := "2024-01-01T00:00:00.000Z";
     lastLoginAt := "2024-01-01T00:00:00.000Z" |}.

(** A world in which alice has an account and nobody has tried to log in. *)
Definition world_with_account : World :=
  {| localStorage :=
       <[user_key "user_1_alice" := VUser alice]>
         (<[user_email_key "alice@example.com" := VString "user_1_alice"]> ∅);
     loginAttempts := ∅ |}.

(** ** Audit records in the store *)

(** The audit a key of an audit id holds, when it parses. *)
Definition stored_audit (w : World) (auditId : string) : option AuditRecord :=
  match localStorage w !! audit_key auditId with
  | Some (VAudit a) => Some (json_audit a)
  | _ => None
  end.

(** The records that the loop of [getProjectAudits] collects for a list
    of ids, in the order of the ids. *)
Definition found_audits (w : World) (auditIds : list string)
  : list AuditRecord :=
  omap (stored_audit w) auditIds.

(** The world after the deletion loop of [deleteProject]. *)
Definition erase_audits (audits : list AuditRecord) (w : World) : World :=
  fold_left (fun w audit => erase (audit_key (auditId audit)) w) audits w.

(** The world after the last step of [deleteProject]: the project id is
    filtered out of the index of the user passed by the caller. *)
Definition unlist_project (projectId userId : string) (w : World) : World :=
  match localStorage w !! user_projects_key userId with
  | Some (VIds projectIds) =>
      write (user_projects_key userId)
        (VIds (List.filter (fun id => negb (String.eqb id projectId))
                 projectIds)) w
  | _ => w
  end.

(** Every value under an audit key is an audit record that carries the id
    of its key. *)
Definition audit_records_keyed (w : World) : Prop :=
  forall id v,
    localStorage w !! audit_key id = Some v ->
    exists a, v = VAudit a /\ auditId a = id.

(** One call of an exported function of the service that can change the
    world; the functions that only read ([getUserProjects], [getProject],
    [getProjectAudits], [getAudit]) leave it as it is. *)
Inductive step (toLowerCase : string -> string)
    (JSON_parse_text : string -> ParsedText)
    (hashPassword : string -> string) : World -> World -> Prop :=
| step_createUser now random created lastLogin email password name w :
    step toLowerCase JSON_parse_text hashPassword w
      (snd (createUser toLowerCase hashPassword now random created lastLogin
              email password name w))
| step_loginUser now iso email password w :
    step toLowerCase JSON_parse_text hashPassword w
      (snd (loginUser toLowerCase hashPassword now iso email password w))
| step_getCurrentUser now refreshedAt token w :
    step toLowerCase JSON_parse_text hashPassword w
      (snd (getCurrentUser JSON_parse_text now refreshedAt token w))
| step_setCurrentUser now token userId w :
    step toLowerCase JSON_parse_text hashPassword w
      (snd (setCurrentUser now token userId w))
| step_logout w :
    step toLowerCase JSON_parse_text hashPassword w (snd (logout w))
| step_createProject now random created updated userId name url desc w :
    step toLowerCase JSON_parse_text hashPassword w
      (snd (createProject now random created updated userId name url desc w))
| step_updateProject iso projectId updates w :
    step toLowerCase JSON_parse_text hashPassword w
      (snd (updateProject iso projectId updates w))
| step_deleteProject projectId userId w :
    step toLowerCase JSON_parse_text hashPassword w
      (snd (deleteProject projectId userId w))
| step_saveAudit now random analyzed ts updated projectId userId report w :
    step toLowerCase JSON_parse_text hashPassword w
      (snd (saveAudit now random analyzed ts updated projectId userId report w))
| step_updateAuditNotes auditId text w :
    step toLowerCase JSON_parse_text hashPassword w
      (snd (updateAuditNotes auditId text w))
| step_deleteAudit auditId projectId w :
    step toLowerCase JSON_parse_text hashPassword w
      (snd (deleteAudit auditId projectId w)).

Definition empty_world : World :=
  {| localStorage := ∅; loginAttempts := ∅ |}.

(** The worlds the service gets to from an empty store. *)
Inductive reachable (toLowerCase : string -> string)
    (JSON_parse_text : string -> ParsedText)
    (hashPassword : string -> string) : World -> Prop :=
| reachable_empty : reachable toLowerCase JSON_parse_text hashPassword empty_world
| reachable_step w w' :
    reachable toLowerCase JSON_parse_text hashPassword w ->
    step toLowerCase JSON_parse_text hashPassword w w' ->
    reachable toLowerCase JSON_parse_text hashPassword w'.

(** A computation keeps the audit records keyed. *)
Definition keeps_keyed {A : Type} (m : M A) : Prop :=
  forall w, audit_records_keyed w -> audit_records_keyed (snd (m w)).

(** A key that is the key of no audit. *)
Definition not_audit_key (key : string) : Prop :=
  forall id, key <> audit_key id.

(** A world with alice's project and one saved audit. *)
Definition world_with_audit : World :=
  snd (saveAudit 2 "k3x9q2m1z" "2024-01-02T10:00:00.000Z"
         "2024-01-02T10:00:00.001Z" "2024-01-02T10:00:00.002Z"
         "proj_1_shop" "user_1_alice" forged_report
         (snd (createProject 1 "shop" "2024-01-01T00:00:00.000Z"
                 "2024-01-01T00:00:00.000Z" "user_1_alice" "Shop" None None
                 empty_world))).

(** ** More vocabulary for the scoring engine *)

(** Some violation carries a severity that names an inherited property. *)
Definition any_inherited (violations : list Violation) : bool :=
  existsb (fun v => inherited (property_key (severity v))) violations.

(** The severity is one of the four of the enum. *)
Definition known_severity (v : Violation) : bool :=
  has_severity Severity.CRITICAL v || has_severity Severity.HIGH v
  || has_severity Severity.MEDIUM v || has_severity Severity.LOW v.

(** Some character matches both atoms. *)
Definition atoms_meet (a b : atom) : bool :=
  match a, b with
  | Chr c, Chr d => Ascii.eqb c d
  | Chr c, Range lo hi | Range lo hi, Chr c =>
      (N_of_ascii lo <=? N_of_ascii c)%N && (N_of_ascii c <=? N_of_ascii hi)%N
  | Range lo hi, Range lo' hi' =>
      (N_of_ascii lo <=? N_of_ascii hi')%N
      && (N_of_ascii lo' <=? N_of_ascii hi)%N
  end.

(** The two anchored patterns can match the same string: their atoms meet
    at every position that both have. *)
Fixpoint patterns_meet (p q : list atom) : bool :=
  match p, q with
  | a :: p', b :: q' => atoms_meet a b && patterns_meet p' q'
  | _, _ => true
  end.

(** No alternative of the first expression meets one of the second. *)
Definition regex_apart (r1 r2 : RegExp) : bool :=
  forallb (fun p => forallb (fun q => negb (patterns_meet p q)) r2) r1.

(** ** More vocabulary for the storage service *)

(** The character occurs in the string. *)
Fixpoint contains (c : ascii) (s : string) : bool :=
  match s with
  | EmptyString => false
  | String d rest => Ascii.eqb d c || contains c rest
  end.

(** The characters that [sanitizeInput] replaces. *)
Definition escaped_characters : list ascii :=
  ["<"; ">"; "034"; "'"; "/"]%char.

(** Every tracked email has between one and five counted failures. *)
Definition attempts_bounded (w : World) : Prop :=
  forall e a,
    loginAttempts w !! e = Some a ->
    (1 <= count a <= MAX_LOGIN_ATTEMPTS)%nat.

(** A computation leaves the table of login attempts as it is. *)
Definition leaves_attempts {A : Type} (m : M A) : Prop :=
  forall w, loginAttempts (snd (m w)) = loginAttempts w.

(** The user record stored for an id, when it parses. *)
Definition stored_user (w : World) (userId : string) : option User :=
  match localStorage w !! user_key userId with
  | Some (VUser u) => Some u
  | _ => None
  end.



(** The order of the list that [getProjectAudits] returns. *)
Definition version_ge (a b : AuditRecord) : Prop :=
  auditVersion b <= auditVersion a.


(** ** Properties of all stored audit records *)

(** The record agrees with the scoring engine run on the violations of its
    own full report; the two scores are the engine's score as JSON text
    holds it, [null] where the engine gives [NaN]. *)
Definition self_consistent (a : AuditRecord) : Prop :=
  let vs := violations (fullReport a) in
  accessibilityScore a = JSON_number (calculateAccessibilityScore vs)
  /\ overall_score (fullReport a) = JSON_number (calculateAccessibilityScore vs)
  /\ wcag_compliance (fullReport a) = determineWCAGCompliance vs
  /\ levelA (wcagCompliance a) = pass (level_a (determineWCAGCompliance vs))
  /\ levelAA (wcagCompliance a) = pass (level_aa (determineWCAGCompliance vs))
  /\ levelAAA (wcagCompliance a) = false
  /\ totalViolations a = length vs
  /\ total_violations (summary (fullReport a)) = length vs.

(** Every value under an audit key is an audit record that is [good]. *)
Definition audit_records_satisfy (good : AuditRecord -> Prop) (w : World)
  : Prop :=
  forall id v,
    localStorage w !! audit_key id = Some v ->
    exists a, v = VAudit a /\ good a.

(** A computation keeps the stored audit records [good]. *)
Definition keeps_audits (good : AuditRecord -> Prop) {A : Type} (m : M A)
  : Prop :=
  forall w,
    audit_records_satisfy good w -> audit_records_satisfy good (snd (m w)).

(** * Properties *)

(** ** The score *)

Lemma spec_weight_nonneg sev : 0 <= spec_weight sev.
Proof.
  destruct sev as [s|]; simpl; [|lia].
  repeat (case (String.eqb s _); [lia|]). lia.
Qed.

Lemma spec_penalty_nonneg violations : 0 <= spec_penalty violations.
Proof.
  induction violations as [|v vs IH]; simpl; [lia|].
  pose proof (spec_weight_nonneg (severity v)). lia.
Qed.

Lemma deduct_plain x v :
  plain_severity v ->
  deduct (Num x) v = Num (x - spec_weight (severity v)).
Proof.
  unfold plain_severity, deduct, weights, spec_weight.
  destruct (severity v) as [s|]; simpl.
  - unfold Severity.CRITICAL, Severity.HIGH, Severity.MEDIUM, Severity.LOW.
    intros Hs.
    repeat (destruct (String.eqb s _); [reflexivity|]).
    rewrite Hs. simpl. reflexivity.
  - intros _. reflexivity.
Qed.

Lemma fold_deduct_plain violations : forall x,
  Forall plain_severity violations ->
  fold_left deduct violations (Num x) = Num (x - spec_penalty violations).
Proof.
  induction violations as [|v vs IH]; intros x Hall; cbn [fold_left].
  - change (spec_penalty []) with 0. f_equal. lia.
  - change (spec_penalty (v :: vs))
      with (spec_weight (severity v) + spec_penalty vs).
    inversion Hall as [|? ? Hv Hvs]; subst.
    rewrite (deduct_plain _ _ Hv), (IH _ Hvs). f_equal. lia.
Qed.

Lemma deduct_NaN v : deduct NaN v = NaN.
Proof. reflexivity. Qed.

Lemma fold_deduct_NaN violations : fold_left deduct violations NaN = NaN.
Proof. induction violations as [|v vs IH]; simpl; auto. Qed.

Example score_empty : calculateAccessibilityScore [] = Num 100.
Proof. reflexivity. Qed.

Example score_one_of_each :
  calculateAccessibilityScore
    [ violation_of (Some "critical") "1.1.1"; violation_of (Some "high") "1.4.3";
      violation_of (Some "medium") "2.4.7"; violation_of (Some "low") "3.1.2";
      violation_of (Some "blocker") "1.1.1"; violation_of None "1.1.1" ]
  = Num 71.
Proof. reflexivity. Qed.

Example score_floor :
  calculateAccessibilityScore
    (repeat (violation_of (Some "critical") "1.1.1") 7) = Num 0.
Proof. reflexivity. Qed.

(** C2 fails in the code.  "constructor" is an unknown severity: the
    specification gives it weight 0, so that a list of one such violation
    scores 100.  In the code [weights["constructor"]] is the function that
    every object inherits from [Object.prototype]; it is truthy, the
    fallback [|| 0] keeps it, subtracting it gives [NaN], and the score is
    [NaN], which is no integer between 0 and 100. *)
Theorem C2_inherited_severity_scores_NaN :
  spec_score [violation_of (Some "constructor") "1.1.1"] = 100
  /\ weights "constructor" = PObject
  /\ calculateAccessibilityScore [violation_of (Some "constructor") "1.1.1"]
     = NaN
  /\ (forall z : Z,
        calculateAccessibilityScore [violation_of (Some "constructor") "1.1.1"]
        <> Num z).
Proof.
  repeat split; try reflexivity.
  intros z H. vm_compute in H. discriminate H.
Qed.

(** X29: for every violation list in which no severity is the name of a
    property inherited from [Object.prototype], the score is
    [max(0, round(100 - sum of weights))] with weights critical 15, high 8,
    medium 4, low 2 and 0 for any other or missing severity, an integer
    between 0 and 100; the score of the empty list is 100. *)
Theorem score_formula_for_plain_severities (violations : list Violation) :
  Forall plain_severity violations ->
  calculateAccessibilityScore violations = Num (spec_score violations)
  /\ 0 <= spec_score violations <= 100
  /\ calculateAccessibilityScore [] = Num 100.
Proof.
  intros Hall. split; [|split].
  - unfold calculateAccessibilityScore, spec_score.
    rewrite (fold_deduct_plain _ _ Hall). simpl. reflexivity.
  - unfold spec_score. pose proof (spec_penalty_nonneg violations). lia.
  - reflexivity.
Qed.

Lemma score_formula_for_plain_severities_witness :
  let violations :=
    [ violation_of (Some "critical") "1.4.3"; violation_of (Some "warning") "2.4.7";
      violation_of None "1.1.1" ] in
  Forall plain_severity violations
  /\ calculateAccessibilityScore violations = Num 85.
Proof.
  simpl. split.
  - repeat constructor.
  - apply (score_formula_for_plain_severities
             [ violation_of (Some "critical") "1.4.3";
               violation_of (Some "warning") "2.4.7";
               violation_of None "1.1.1" ]).
    repeat constructor.
Defined.

(** ** WCAG compliance *)

Lemma filter_length_zero {A : Type} (f : A -> bool) (l : list A) :
  Nat.eqb (length (List.filter f l)) 0 = true
  <-> (forall x, In x l -> f x = false).
Proof.
  induction l as [|a l IH]; simpl.
  - split; [intros _ x []|reflexivity].
  - destruct (f a) eqn:Hfa; simpl.
    + split; [discriminate|].
      intros H. specialize (H a (or_introl eq_refl)). congruence.
    + rewrite IH. split.
      * intros H x [<-|Hx]; auto.
      * intros H x Hx. apply H. right. exact Hx.
Qed.

Lemma levelA_pass_iff violations :
  pass (level_a (determineWCAGCompliance violations)) = true
  <-> (forall v, In v violations ->
         test levelA_regex (wcag_criterion v) = false).
Proof.
  unfold determineWCAGCompliance, checkLevel. cbn [pass level_a].
  apply filter_length_zero.
Qed.

Lemma levelA_fails violations v :
  In v violations ->
  test levelA_regex (wcag_criterion v) = true ->
  pass (level_a (determineWCAGCompliance violations)) = false
  /\ pass (level_aa (determineWCAGCompliance violations)) = false.
Proof.
  intros Hin Hm.
  assert (Ha : pass (level_a (determineWCAGCompliance violations)) = false).
  { destruct (pass (level_a (determineWCAGCompliance violations))) eqn:Hp;
      [|reflexivity].
    pose proof (proj1 (levelA_pass_iff violations) Hp v Hin) as Hf.
    rewrite Hf in Hm. discriminate Hm. }
  split; [exact Ha|].
  unfold determineWCAGCompliance in *. cbn [pass level_a level_aa] in *.
  rewrite Ha. reflexivity.
Qed.

Example compliance_empty :
  determineWCAGCompliance []
  = {| level_a := {| pass := true; level_violations := 0 |};
       level_aa := {| pass := true; level_violations := 0 |};
       level_aaa := {| not_tested := true |} |}.
Proof. reflexivity. Qed.

Example compliance_1_4_3 :
  determineWCAGCompliance [violation_of (Some "critical") "1.4.3"]
  = {| level_a := {| pass := true; level_violations := 0 |};
       level_aa := {| pass := false; level_violations := 1 |};
       level_aaa := {| not_tested := true |} |}.
Proof. reflexivity. Qed.

(** C3: [level_aa.pass] holds exactly when [level_a.pass] holds and no
    violation matches the Level-AA patterns; and a violation whose
    criterion is "1.1.1" makes both [level_a.pass] and [level_aa.pass]
    false, whatever else the list holds. *)
Theorem C3_levelAA_iff_levelA_and_no_AA (violations : list Violation) :
  (pass (level_aa (determineWCAGCompliance violations)) = true
   <-> pass (level_a (determineWCAGCompliance violations)) = true
       /\ (forall v, In v violations ->
             test levelAA_regex (wcag_criterion v) = false))
  /\ (forall v, In v violations -> wcag_criterion v = "1.1.1" ->
        pass (level_a (determineWCAGCompliance violations)) = false
        /\ pass (level_aa (determineWCAGCompliance violations)) = false).
Proof.
  split.
  - unfold determineWCAGCompliance, checkLevel. cbn [pass level_a level_aa].
    rewrite andb_true_iff.
    rewrite (filter_length_zero
               (fun v => test levelAA_regex (wcag_criterion v))).
    reflexivity.
  - intros v Hin Hc. apply (levelA_fails violations v Hin).
    rewrite Hc. reflexivity.
Qed.

Lemma C3_levelAA_iff_levelA_and_no_AA_witness :
  let v := violation_of (Some "low") "1.1.1" in
  In v [v] /\ wcag_criterion v = "1.1.1"
  /\ test levelAA_regex (wcag_criterion v) = false
  /\ pass (level_a (determineWCAGCompliance [v])) = false
  /\ pass (level_aa (determineWCAGCompliance [v])) = false.
Proof.
  simpl. split; [left; reflexivity|]. split; [reflexivity|].
  split; [reflexivity|].
  apply (proj2 (C3_levelAA_iff_levelA_and_no_AA
                  [violation_of (Some "low") "1.1.1"])
           (violation_of (Some "low") "1.1.1")).
  - left; reflexivity.
  - reflexivity.
Defined.

Lemma starts_with_app p : forall s suffix,
  starts_with p s = true -> starts_with p (s +:+ suffix) = true.
Proof.
  induction p as [|a p IH]; intros s suffix; simpl; [reflexivity|].
  destruct s as [|c s]; simpl; [discriminate|].
  rewrite !andb_true_iff. intros [Ha Hp]. split; [exact Ha|].
  apply IH. exact Hp.
Qed.

Lemma test_app regex s suffix :
  test regex s = true -> test regex (s +:+ suffix) = true.
Proof.
  unfold test. rewrite !existsb_exists.
  intros [p [Hin Hp]]. exists p. split; [exact Hin|].
  apply starts_with_app. exact Hp.
Qed.

(** C10: the patterns are anchored at the start only, so a criterion that
    continues a matching one matches too; "2.4.10", which the AAA table
    lists, matches the Level-A pattern for 2.4.1, and a list that holds
    such a violation fails Level A and Level AA. *)
Theorem C10_prefix_match_2_4_10 :
  (forall s suffix, test levelA_regex s = true ->
     test levelA_regex (s +:+ suffix) = true)
  /\ test levelA_regex "2.4.1" = true
  /\ test levelAAA_regex "2.4.10" = true
  /\ test levelA_regex "2.4.10" = true
  /\ (forall violations v, In v violations -> wcag_criterion v = "2.4.10" ->
        pass (level_a (determineWCAGCompliance violations)) = false
        /\ pass (level_aa (determineWCAGCompliance violations)) = false).
Proof.
  split; [intros s suffix; apply test_app|].
  repeat (split; [reflexivity|]).
  intros violations v Hin Hc. apply (levelA_fails violations v Hin).
  rewrite Hc. reflexivity.
Qed.

Lemma C10_prefix_match_2_4_10_witness :
  let v := violation_of (Some "low") "2.4.10" in
  pass (level_a (determineWCAGCompliance [v])) = false
  /\ pass (level_aa (determineWCAGCompliance [v])) = false.
Proof.
  simpl.
  apply (proj2 (proj2 (proj2 (proj2 C10_prefix_match_2_4_10)))
           [violation_of (Some "low") "2.4.10"]
           (violation_of (Some "low") "2.4.10")).
  - left; reflexivity.
  - reflexivity.
Defined.

(** ** Keys of different families never meet *)

Ltac key_discriminate :=
  unfold audit_key, project_key, project_audits_key, user_projects_key,
    user_key, user_email_key;
  cbn [String.append]; discriminate.

Lemma audit_key_inj a b : audit_key a = audit_key b -> a = b.
Proof. unfold audit_key. cbn [String.append]. intros H. injection H. auto. Qed.

Lemma audit_project_neq a b : audit_key a <> project_key b.
Proof. key_discriminate. Qed.
Lemma audit_index_neq a b : audit_key a <> project_audits_key b.
Proof. key_discriminate. Qed.
Lemma audit_user_projects_neq a b : audit_key a <> user_projects_key b.
Proof. key_discriminate. Qed.
Lemma project_index_neq a b : project_key a <> project_audits_key b.
Proof. key_discriminate. Qed.
Lemma project_user_projects_neq a b : project_key a <> user_projects_key b.
Proof. key_discriminate. Qed.
Lemma index_user_projects_neq a b :
  project_audits_key a <> user_projects_key b.
Proof. key_discriminate. Qed.
Lemma user_email_neq a b : user_key a <> user_email_key b.
Proof. key_discriminate. Qed.

Create HintDb keys.
#[local] Hint Resolve audit_project_neq audit_index_neq
  audit_user_projects_neq project_index_neq project_user_projects_neq
  index_user_projects_neq user_email_neq : keys.
#[local] Hint Extern 1 (_ <> _) => apply not_eq_sym : keys.

(** ** JSON text of records *)

Lemma JSON_number_idem n : JSON_number (JSON_number n) = JSON_number n.
Proof. destruct n; reflexivity. Qed.

Lemma JSON_number_id n : n <> NaN -> JSON_number n = n.
Proof. destruct n; [reflexivity|congruence|reflexivity]. Qed.

Lemma json_report_idem r : json_report (json_report r) = json_report r.
Proof.
  unfold json_report. cbn [overall_score wcag_compliance violations summary
                             analyzed_at].
  rewrite JSON_number_idem. reflexivity.
Qed.

Lemma json_audit_idem a : json_audit (json_audit a) = json_audit a.
Proof.
  unfold json_audit.
  cbn [auditId audit_projectId audit_userId auditVersion timestamp
         accessibilityScore wcagCompliance totalViolations
         violationsBySeverity fullReport notes].
  rewrite JSON_number_idem, json_report_idem. reflexivity.
Qed.

Lemma json_project_idem p : json_project (json_project p) = json_project p.
Proof.
  unfold json_project.
  cbn [projectId project_userId projectName websiteUrl project_description
         project_createdAt updatedAt auditCount latestScore].
  rewrite JSON_number_idem. reflexivity.
Qed.

Lemma json_audit_id a :
  accessibilityScore a <> NaN ->
  overall_score (fullReport a) <> NaN ->
  json_audit a = a.
Proof.
  destruct a as [? ? ? ? ? sc ? ? ? [osc ? ? ? ?] ?]. cbn. intros Hs Ho.
  unfold json_audit, json_report. cbn.
  rewrite (JSON_number_id _ Hs), (JSON_number_id _ Ho). reflexivity.
Qed.

Lemma json_audit_set_notes a text :
  json_audit (set_notes a text) = set_notes (json_audit a) text.
Proof. reflexivity. Qed.

(** The engine never gives [null]: its score is an integer or [NaN]. *)
Lemma score_not_Null violations :
  calculateAccessibilityScore violations <> Null.
Proof.
  unfold calculateAccessibilityScore, Math_max, Math_round.
  destruct (numeric (fold_left deduct violations (Num 100))); cbn;
    discriminate.
Qed.

(** ** What the project and audit operations write *)

Lemma stored_project_write_ne key val w pid :
  key <> project_key pid ->
  stored_project (write key val w) pid = stored_project w pid.
Proof.
  intros Hne. unfold stored_project, write. cbn [localStorage].
  rewrite lookup_insert_ne by exact Hne. reflexivity.
Qed.

Lemma stored_project_write_eq pid p w :
  stored_project (write (project_key pid) (VProject p) w) pid
  = Some (json_project p).
Proof.
  unfold stored_project, write. cbn [localStorage].
  rewrite lookup_insert_eq. reflexivity.
Qed.

Lemma stored_ids_write_ne key val w key' :
  key <> key' -> stored_ids (write key val w) key' = stored_ids w key'.
Proof.
  intros Hne. unfold stored_ids, write. cbn [localStorage].
  rewrite lookup_insert_ne by exact Hne. reflexivity.
Qed.

Lemma getProject_eq pid w :
  getProject pid w = (Return (stored_project w pid), w).
Proof.
  unfold getProject, stored_project, try_catch, bind, storageAPI.get.
  destruct (localStorage w !! project_key pid) as [[]|]; reflexivity.
Qed.

Lemma updateProject_eq iso pid updates w :
  updateProject iso pid updates w =
  match stored_project w pid with
  | Some p =>
      (Return tt,
       write (project_key pid)
         (VProject (json_project (merge_updates iso p (sanitize_updates updates))))
         w)
  | None => (Throw ProjectNotFound, w)
  end.
Proof.
  unfold updateProject, bind. rewrite getProject_eq.
  destruct (stored_project w pid); reflexivity.
Qed.

(** The [try]/[catch] that appends an id to an index, creating the index
    when the read or the parse fails. *)
Lemma append_id_eq key id w :
  try_catch
    (existing <- storageAPI.get key ;;
     ids <- JSON.parse_ids existing ;;
     storageAPI.set key (JSON.stringify_ids (ids ++ [id])%list))
    (fun _ => storageAPI.set key (JSON.stringify_ids [id])) w
  = (Return tt, write key (VIds (stored_ids w key ++ [id])%list) w).
Proof.
  unfold try_catch, bind, storageAPI.get, stored_ids.
  destruct (localStorage w !! key) as [[]|]; reflexivity.
Qed.

Lemma createProject_eq now random created updated uid name url desc w :
  let pid := "proj_" +:+ pretty now +:+ "_" +:+ random in
  let project :=
    {| projectId := pid;
       project_userId := uid;
       projectName := sanitizeInput name;
       websiteUrl := sanitize_optional url;
       project_description := sanitize_optional desc;
       project_createdAt := created;
       updatedAt := updated;
       auditCount := 0;
       latestScore := Num 0 |} in
  createProject now random created updated uid name url desc w
  = (Return project,
     write (user_projects_key uid)
       (VIds (stored_ids w (user_projects_key uid) ++ [pid])%list)
       (write (project_key pid) (VProject project) w)).
Proof.
  cbv zeta. unfold createProject. cbv zeta.
  unfold bind at 1. cbn [storageAPI.set].
  match goal with
  | |- context [ {| localStorage := <[?k := ?v]> _; loginAttempts := _ |} ] =>
      fold (write k v w)
  end.
  unfold bind at 1. rewrite append_id_eq.
  rewrite stored_ids_write_ne by auto with keys.
  reflexivity.
Qed.

Lemma saveAudit_eq now random analyzedAt ts upd pid uid (r : AuditReport) w :
  saveAudit now random analyzedAt ts upd pid uid r w =
  match stored_project w pid with
  | None => (Throw ProjectNotFound, w)
  | Some p =>
      if negb (String.eqb (project_userId p) uid) then (Throw Unauthorized, w)
      else
        let audit := saved now random analyzedAt ts pid uid p (violations r) in
        (Return audit,
         write (project_key pid)
           (VProject
              (json_project
                 (merge_updates upd p
                    (audit_updates (auditVersion audit)
                       (accessibilityScore audit)))))
           (write (project_audits_key pid)
              (VIds (stored_ids w (project_audits_key pid) ++ [auditId audit])%list)
              (write (audit_key (auditId audit)) (VAudit (json_audit audit)) w)))
  end.
Proof.
  unfold saveAudit. unfold bind at 1. rewrite getProject_eq.
  destruct (stored_project w pid) as [p|] eqn:Hp; [|reflexivity].
  destruct (negb _) eqn:Hown; [reflexivity|].
  cbv zeta. fold (saved now random analyzedAt ts pid uid p (violations r)).
  set (audit := saved _ _ _ _ _ _ _ _).
  unfold bind at 1. cbn [storageAPI.set]. unfold JSON.stringify_AuditRecord.
  fold (write (audit_key ("aud_" +:+ pretty now +:+ "_" +:+ random))
          (VAudit (json_audit audit)) w).
  unfold bind at 1. rewrite append_id_eq.
  unfold bind at 1. rewrite updateProject_eq.
  rewrite !stored_project_write_ne by auto with keys.
  rewrite Hp.
  rewrite stored_ids_write_ne by auto with keys.
  reflexivity.
Qed.

(** Saving succeeds for the owner of a stored project. *)
Lemma saveAudit_returns now random analyzedAt ts upd pid uid r w p :
  stored_project w pid = Some p ->
  project_userId p = uid ->
  exists w',
    saveAudit now random analyzedAt ts upd pid uid r w
    = (Return (saved now random analyzedAt ts pid uid p (violations r)), w').
Proof.
  intros Hp Hu. rewrite saveAudit_eq, Hp, Hu, String.eqb_refl.
  cbn [negb]. eexists. reflexivity.
Qed.

(** ** Saved audits *)

(** C1 fails in the code for a violation whose severity is "constructor".
    The engine's score for the caller's violations is [NaN], and so is the
    score of the record that [saveAudit] returns; the record persisted
    under the audit's key is the JSON text of it, which has [null] for
    [accessibilityScore] and for [fullReport.overall_score], and [getAudit]
    reads [null] back.  The persisted score is not the engine's output.
    The project's [latestScore] is persisted as [null] as well. *)
Theorem C1_NaN_score_is_persisted_as_null :
  exists audit w',
    saveAudit 2 "k3x9q2m1z" "2024-01-02T10:00:00.000Z"
      "2024-01-02T10:00:00.001Z" "2024-01-02T10:00:00.002Z"
      "proj_1_shop" "user_1_alice" constructor_report world_with_project
    = (Return audit, w')
    /\ calculateAccessibilityScore (violations constructor_report) = NaN
    /\ overall_score
         (generateAuditReport "2024-01-02T10:00:00.000Z"
            (violations constructor_report)) = NaN
    /\ accessibilityScore audit = NaN
    /\ (exists persisted,
          localStorage w' !! audit_key (auditId audit) = Some (VAudit persisted)
          /\ accessibilityScore persisted = Null
          /\ overall_score (fullReport persisted) = Null)
    /\ (exists readBack,
          getAudit (auditId audit) w' = (Return (Some readBack), w')
          /\ accessibilityScore readBack = Null
          /\ overall_score (fullReport readBack) = Null)
    /\ (exists project,
          getProject "proj_1_shop" w' = (Return (Some project), w')
          /\ latestScore project = Null).
Proof.
  eexists. eexists. split; [vm_compute; reflexivity|].
  split; [reflexivity|]. split; [reflexivity|]. split; [reflexivity|].
  split; [|split].
  - eexists. split; [vm_compute; reflexivity|]. split; reflexivity.
  - eexists. split; [vm_compute; reflexivity|]. split; reflexivity.
  - eexists. split; [vm_compute; reflexivity|]. reflexivity.
Qed.

(** X30: the record that [saveAudit] returns has the score, compliance
    flags, violation counts and full report of [generateAuditReport]
    applied to the violations of the caller's report; what is persisted
    under the audit's key is the JSON text of that record, which reads back
    as the record itself whenever the score is not [NaN]; a report with the
    same violations and any other [overall_score], [summary] or
    [wcag_compliance] gives the same record and the same store. *)
Theorem saveAudit_persists_rederived_record
    now random analyzedAt ts upd pid uid (r : AuditReport) w audit w' :
  saveAudit now random analyzedAt ts upd pid uid r w = (Return audit, w') ->
  let engine := generateAuditReport analyzedAt (violations r) in
  localStorage w' !! audit_key (auditId audit)
  = Some (JSON.stringify_AuditRecord audit)
  /\ (calculateAccessibilityScore (violations r) <> NaN ->
      localStorage w' !! audit_key (auditId audit) = Some (VAudit audit))
  /\ accessibilityScore audit = calculateAccessibilityScore (violations r)
  /\ wcagCompliance audit =
       {| levelA := pass (level_a (determineWCAGCompliance (violations r)));
          levelAA := pass (level_aa (determineWCAGCompliance (violations r)));
          levelAAA := false |}
  /\ totalViolations audit = total_violations (summary engine)
  /\ violationsBySeverity audit =
       {| by_critical := critical (summary engine);
          by_high := high (summary engine);
          by_medium := medium (summary engine);
          by_low := low (summary engine) |}
  /\ fullReport audit = engine
  /\ (forall forged : AuditReport,
        violations forged = violations r ->
        saveAudit now random analyzedAt ts upd pid uid forged w
        = (Return audit, w')).
Proof.
  rewrite saveAudit_eq.
  destruct (stored_project w pid) as [p|] eqn:Hp; [|discriminate].
  destruct (negb _) eqn:Hown; [discriminate|].
  cbv zeta. intros H. injection H as <- <-.
  split.
  { unfold write. cbn [localStorage].
    rewrite !lookup_insert_ne by auto with keys.
    apply lookup_insert_eq. }
  split.
  { intros Hnum. unfold write. cbn [localStorage].
    rewrite !lookup_insert_ne by auto with keys.
    rewrite lookup_insert_eq. do 2 f_equal.
    apply json_audit_id; exact Hnum. }
  repeat (split; [reflexivity|]).
  intros forged Hv. rewrite saveAudit_eq, Hp, Hown, Hv. reflexivity.
Qed.

Lemma saveAudit_persists_rederived_record_witness :
  exists audit w',
    saveAudit 2 "k3x9q2m1z" "2024-01-02T10:00:00.000Z"
      "2024-01-02T10:00:00.001Z" "2024-01-02T10:00:00.002Z"
      "proj_1_shop" "user_1_alice" forged_report world_with_project
    = (Return audit, w')
    /\ overall_score forged_report = Num 100
    /\ accessibilityScore audit = Num 85
    /\ localStorage w' !! audit_key (auditId audit) = Some (VAudit audit).
Proof.
  pose (out := saveAudit 2 "k3x9q2m1z" "2024-01-02T10:00:00.000Z"
      "2024-01-02T10:00:00.001Z" "2024-01-02T10:00:00.002Z"
      "proj_1_shop" "user_1_alice" forged_report world_with_project).
  assert (H : out
              = (Return (saved 2 "k3x9q2m1z" "2024-01-02T10:00:00.000Z"
                           "2024-01-02T10:00:00.001Z" "proj_1_shop"
                           "user_1_alice" alice_project
                           (violations forged_report)),
                 snd out)) by (vm_compute; reflexivity).
  eexists. exists (snd out). split; [exact H|].
  destruct (saveAudit_persists_rederived_record _ _ _ _ _ _ _ _ _ _ _ H)
    as (_ & Hstored & Hscore & _).
  split; [reflexivity|]. split; [rewrite Hscore; reflexivity|].
  apply Hstored. vm_compute. discriminate.
Defined.

(** C4: on a project that [createProject] has just made (audit count 0),
    saving a report whose only violation is critical with criterion
    "1.4.3" gives version 1, score 85, Level A passed and Level AA failed,
    and leaves the project with audit count 1 and latest score 85. *)
Theorem C4_first_audit_scenario
    now0 random0 created0 updated0 uid name url desc w0
    now random analyzedAt ts upd (r : AuditReport) (v : Violation) :
  violations r = [v] ->
  severity v = Some "critical" ->
  wcag_criterion v = "1.4.3" ->
  exists project w1 audit w2 project',
    createProject now0 random0 created0 updated0 uid name url desc w0
    = (Return project, w1)
    /\ auditCount project = 0
    /\ saveAudit now random analyzedAt ts upd (projectId project) uid r w1
       = (Return audit, w2)
    /\ auditVersion audit = 1
    /\ accessibilityScore audit = Num 85
    /\ levelA (wcagCompliance audit) = true
    /\ levelAA (wcagCompliance audit) = false
    /\ stored_project w2 (projectId project) = Some project'
    /\ auditCount project' = 1
    /\ latestScore project' = Num 85.
Proof.
  intros Hr Hsev Hcrit.
  pose proof (createProject_eq now0 random0 created0 updated0 uid name url
                desc w0) as Hc.
  cbv zeta in Hc.
  set (pid := "proj_" +:+ pretty now0 +:+ "_" +:+ random0) in *.
  set (project := {| projectId := pid; project_userId := uid |}) in *.
  set (w1 := write (user_projects_key uid) _ _) in Hc.
  assert (Hp : stored_project w1 pid = Some project).
  { unfold w1. rewrite stored_project_write_ne by auto with keys.
    apply stored_project_write_eq. }
  assert (Hscore : calculateAccessibilityScore [v] = Num 85).
  { unfold calculateAccessibilityScore, deduct. cbn [fold_left].
    rewrite Hsev. reflexivity. }
  assert (Hwcag : pass (level_a (determineWCAGCompliance [v])) = true
                  /\ pass (level_aa (determineWCAGCompliance [v])) = false).
  { unfold determineWCAGCompliance, checkLevel. cbn [List.filter].
    rewrite Hcrit. split; reflexivity. }
  pose proof (saveAudit_eq now random analyzedAt ts upd pid uid r w1) as Hs.
  rewrite Hp in Hs. cbn [project_userId project] in Hs.
  change (project_userId project) with uid in Hs.
  rewrite String.eqb_refl in Hs. cbn [negb] in Hs. cbv zeta in Hs.
  rewrite Hr in Hs.
  eexists project, w1, _, _, _.
  split; [exact Hc|]. split; [reflexivity|]. split; [exact Hs|].
  split; [reflexivity|]. split; [exact Hscore|].
  split; [apply Hwcag|]. split; [apply Hwcag|].
  split; [apply stored_project_write_eq|].
  split; [reflexivity|].
  change (JSON_number (JSON_number (calculateAccessibilityScore [v]))
          = Num 85).
  rewrite Hscore. reflexivity.
Qed.

Lemma C4_first_audit_scenario_witness :
  exists audit w2 project',
    saveAudit 2 "k3x9q2m1z" "2024-01-02T10:00:00.000Z"
      "2024-01-02T10:00:00.001Z" "2024-01-02T10:00:00.002Z"
      "proj_1_shop" "user_1_alice" forged_report
      (snd (createProject 1 "shop" "2024-01-01T00:00:00.000Z"
              "2024-01-01T00:00:00.000Z" "user_1_alice" "Shop" None None
              {| localStorage := ∅; loginAttempts := ∅ |}))
    = (Return audit, w2)
    /\ auditVersion audit = 1
    /\ accessibilityScore audit = Num 85
    /\ stored_project w2 "proj_1_shop" = Some project'
    /\ auditCount project' = 1
    /\ latestScore project' = Num 85.
Proof.
  destruct (C4_first_audit_scenario 1 "shop" "2024-01-01T00:00:00.000Z"
              "2024-01-01T00:00:00.000Z" "user_1_alice" "Shop" None None
              {| localStorage := ∅; loginAttempts := ∅ |}
              2 "k3x9q2m1z" "2024-01-02T10:00:00.000Z"
              "2024-01-02T10:00:00.001Z" "2024-01-02T10:00:00.002Z"
              forged_report (violation_of (Some "critical") "1.4.3")
              eq_refl eq_refl eq_refl)
    as (project & w1 & audit & w2 & project' & Hc & _ & Hs & Hv & Hsc & _ & _
        & Hp & Hn & Hl).
  assert (Hpid : projectId project = "proj_1_shop").
  { rewrite createProject_eq in Hc. injection Hc as <- _. reflexivity. }
  rewrite Hc in *. cbn [snd]. rewrite Hpid in *.
  exists audit, w2, project'. repeat split; assumption.
Defined.

(** ** Login *)

Lemma check_rate_limit_eq now e w :
  check_rate_limit now e w =
  match loginAttempts w !! e with
  | Some a =>
      if (MAX_LOGIN_ATTEMPTS <=? count a)%nat then
        if now - lastAttempt a <? LOCKOUT_DURATION then
          (Throw (TooManyAttempts
                    (Math_ceil_div
                       (LOCKOUT_DURATION - (now - lastAttempt a)) 60000)), w)
        else (Return tt, forget e w)
      else (Return tt, w)
  | None => (Return tt, w)
  end.
Proof.
  unfold check_rate_limit, bind, attempts.get.
  destruct (loginAttempts w !! e) as [a|]; [|reflexivity].
  destruct (MAX_LOGIN_ATTEMPTS <=? count a)%nat; [|reflexivity].
  destruct (now - lastAttempt a <? LOCKOUT_DURATION); reflexivity.
Qed.

Section Login.

Variable toLowerCase : string -> string.
Variable hashPassword : string -> string.

Lemma loginUser_eq now iso email password w :
  loginUser toLowerCase hashPassword now iso email password w =
  match check_rate_limit now (toLowerCase email) w with
  | (Return _, w1) =>
      verify hashPassword now iso (toLowerCase email) password w1
  | (Throw err, w1) => (Throw err, w1)
  end.
Proof.
  unfold loginUser. cbv zeta. unfold bind at 1.
  destruct (check_rate_limit now (toLowerCase email) w) as [[[]|err] w1];
    [|reflexivity].
  unfold verify, account, try_catch, bind, storageAPI.get.
  destruct (localStorage w1 !! user_email_key (toLowerCase email))
    as [[uid| | | | |]|]; try reflexivity.
  cbn [raw_value ret].
  destruct (localStorage w1 !! user_key uid) as [[|u| | | |]|];
    try reflexivity.
  cbn [JSON.parse_User ret].
  destruct (String.eqb (hashPassword password) (passwordHash u));
    reflexivity.
Qed.

End Login.

(** [Math_ceil_div a 60000] is the least number of whole minutes that
    cover [a] milliseconds. *)
Lemma ceil_minutes a :
  60000 * (Math_ceil_div a 60000 - 1) < a <= 60000 * Math_ceil_div a 60000.
Proof.
  unfold Math_ceil_div.
  pose proof (Z.div_mod (- a) 60000 ltac:(lia)).
  pose proof (Z.mod_pos_bound (- a) 60000 ltac:(lia)).
  lia.
Qed.

(** The minutes a refused attempt is told to wait: between 1 and 15. *)
Lemma minutesLeft_bounds elapsed :
  0 <= elapsed < LOCKOUT_DURATION ->
  1 <= Math_ceil_div (LOCKOUT_DURATION - elapsed) 60000 <= 15.
Proof.
  unfold Math_ceil_div, LOCKOUT_DURATION. intros H.
  pose proof (Z.div_mod (- (15 * 60 * 1000 - elapsed)) 60000 ltac:(lia)).
  pose proof (Z.mod_pos_bound (- (15 * 60 * 1000 - elapsed)) 60000 ltac:(lia)).
  lia.
Qed.

Section LoginProperties.

Variable toLowerCase : string -> string.
Variable hashPassword : string -> string.

Lemma verify_fails now iso e password w w' err :
  verify hashPassword now iso e password w = (Throw err, w') ->
  err = InvalidEmailOrPassword /\ w' = record_failure now e w.
Proof.
  unfold verify.
  destruct (account w e) as [[uid u]|];
    [destruct (String.eqb _ _)|]; intros H; inversion H; auto.
Qed.

(** A failed attempt leaves an entry that counts at least one failure
    and is stamped with the time of the attempt. *)
Lemma first_failure now iso email password w w' :
  loginUser toLowerCase hashPassword now iso email password w
  = (Throw InvalidEmailOrPassword, w') ->
  exists a, loginAttempts w' !! toLowerCase email = Some a
            /\ (1 <= count a)%nat /\ lastAttempt a = now.
Proof.
  rewrite loginUser_eq, check_rate_limit_eq.
  set (e := toLowerCase email).
  assert (Hrec : forall w1 w2 err,
             verify hashPassword now iso e password w1 = (Throw err, w2) ->
             exists a, loginAttempts w2 !! e = Some a
                       /\ (1 <= count a)%nat /\ lastAttempt a = now).
  { intros w1 w2 err Hv. apply verify_fails in Hv as [_ ->].
    unfold record_failure. cbn [loginAttempts].
    rewrite lookup_insert_eq. eexists. split; [reflexivity|].
    cbn [count lastAttempt]. split; [lia|reflexivity]. }
  destruct (loginAttempts w !! e) as [a|]; [|apply Hrec].
  destruct (MAX_LOGIN_ATTEMPTS <=? count a)%nat; [|apply Hrec].
  destruct (now - lastAttempt a <? LOCKOUT_DURATION); [discriminate|].
  apply Hrec.
Qed.

(** A further failed attempt, made less than the lockout duration after
    the last one, adds one to the count. *)
Lemma next_failure now iso email password w w' a :
  loginAttempts w !! toLowerCase email = Some a ->
  now - lastAttempt a < LOCKOUT_DURATION ->
  loginUser toLowerCase hashPassword now iso email password w
  = (Throw InvalidEmailOrPassword, w') ->
  loginAttempts w' !! toLowerCase email
  = Some {| count := count a + 1; lastAttempt := now |}.
Proof.
  intros Ha Hwin. rewrite loginUser_eq, check_rate_limit_eq, Ha.
  apply Z.ltb_lt in Hwin. rewrite Hwin.
  destruct (MAX_LOGIN_ATTEMPTS <=? count a)%nat; [discriminate|].
  intros Hv. apply verify_fails in Hv as [_ ->].
  unfold record_failure. cbn [loginAttempts].
  rewrite lookup_insert_eq, Ha. reflexivity.
Qed.

(** C6: after five consecutive failed attempts for an email, each made
    less than the lockout duration after the one before, a sixth attempt
    made less than the lockout duration after the fifth is refused with
    the number of minutes left, whatever the password, and changes
    nothing; the number [m] it carries is the remaining wait rounded up
    to whole minutes, [60000 * (m - 1) < LOCKOUT_DURATION - (now - t5)
    <= 60000 * m], and the error text spells it out; a sixth attempt made
    once the lockout duration has passed since the fifth, with the
    password of the account, returns the user and leaves no attempt entry
    for the email. *)
Theorem C6_lockout_after_five_failures
    email w0 w1 w2 w3 w4 w5 t1 t2 t3 t4 t5 i1 i2 i3 i4 i5 p1 p2 p3 p4 p5 :
  loginUser toLowerCase hashPassword t1 i1 email p1 w0
  = (Throw InvalidEmailOrPassword, w1) ->
  loginUser toLowerCase hashPassword t2 i2 email p2 w1
  = (Throw InvalidEmailOrPassword, w2) ->
  loginUser toLowerCase hashPassword t3 i3 email p3 w2
  = (Throw InvalidEmailOrPassword, w3) ->
  loginUser toLowerCase hashPassword t4 i4 email p4 w3
  = (Throw InvalidEmailOrPassword, w4) ->
  loginUser toLowerCase hashPassword t5 i5 email p5 w4
  = (Throw InvalidEmailOrPassword, w5) ->
  t2 - t1 < LOCKOUT_DURATION ->
  t3 - t2 < LOCKOUT_DURATION ->
  t4 - t3 < LOCKOUT_DURATION ->
  t5 - t4 < LOCKOUT_DURATION ->
  (forall now iso password,
     now - t5 < LOCKOUT_DURATION ->
     loginUser toLowerCase hashPassword now iso email password w5
     = (Throw (TooManyAttempts
                 (Math_ceil_div (LOCKOUT_DURATION - (now - t5)) 60000)),
        w5)
     /\ (exists m,
           fst (loginUser toLowerCase hashPassword now iso email password w5)
           = Throw (TooManyAttempts m)
           /\ 60000 * (m - 1) < LOCKOUT_DURATION - (now - t5) <= 60000 * m
           /\ message (TooManyAttempts m)
              = "Too many login attempts. Please try again in "
                  +:+ pretty m +:+ " minutes."))
  /\ (forall now iso password userId user,
        LOCKOUT_DURATION <= now - t5 ->
        account w5 (toLowerCase email) = Some (userId, user) ->
        hashPassword password = passwordHash user ->
        exists w6,
          loginUser toLowerCase hashPassword now iso email password w5
          = (Return (set_lastLoginAt user iso), w6)
          /\ loginAttempts w6 !! toLowerCase email = None).
Proof.
  intros H1 H2 H3 H4 H5 W2 W3 W4 W5.
  destruct (first_failure _ _ _ _ _ _ H1) as (a1 & Ha1 & Hc1 & Hl1).
  assert (Ha2 := next_failure t2 i2 email p2 w1 w2 a1 Ha1).
  rewrite Hl1 in Ha2. specialize (Ha2 W2 H2).
  assert (Ha3 := next_failure t3 i3 email p3 w2 w3 _ Ha2 W3 H3).
  assert (Ha4 := next_failure t4 i4 email p4 w3 w4 _ Ha3 W4 H4).
  assert (Ha5 := next_failure t5 i5 email p5 w4 w5 _ Ha4 W5 H5).
  cbn [count lastAttempt] in Ha5.
  assert (Hmax : (MAX_LOGIN_ATTEMPTS <=? count a1 + 1 + 1 + 1 + 1)%nat = true).
  { apply Nat.leb_le. unfold MAX_LOGIN_ATTEMPTS. lia. }
  split.
  - intros now iso password Hwin.
    rewrite loginUser_eq, check_rate_limit_eq, Ha5.
    cbn [count lastAttempt]. rewrite Hmax.
    apply Z.ltb_lt in Hwin. rewrite Hwin.
    split; [reflexivity|].
    exists (Math_ceil_div (LOCKOUT_DURATION - (now - t5)) 60000).
    split; [reflexivity|]. split; [apply ceil_minutes|reflexivity].
  - intros now iso password uid user Hwin Hacc Hpw.
    rewrite loginUser_eq, check_rate_limit_eq, Ha5.
    cbn [count lastAttempt]. rewrite Hmax.
    apply Z.ltb_ge in Hwin. rewrite Hwin.
    unfold verify.
    assert (Hacc' : account (forget (toLowerCase email) w5)
                      (toLowerCase email) = Some (uid, user)) by exact Hacc.
    rewrite Hacc', Hpw, String.eqb_refl.
    eexists. split; [reflexivity|].
    unfold write, forget. cbn [loginAttempts].
    rewrite lookup_delete_eq. reflexivity.
Qed.

(** C7: an attempt that the rate limit lets pass fails in the same way
    for an email without an account as for an email with an account and
    another password: the same error, the same update of the attempt
    table, and an unchanged store. *)
Theorem C7_unknown_email_and_wrong_password_alike
    now isoA isoB email passwordA passwordB wA wB userId user :
  loginAttempts wA = loginAttempts wB ->
  rate_limited now (toLowerCase email) wA = false ->
  localStorage wA !! user_email_key (toLowerCase email) = None ->
  account wB (toLowerCase email) = Some (userId, user) ->
  hashPassword passwordB <> passwordHash user ->
  let '(resultA, wA') :=
    loginUser toLowerCase hashPassword now isoA email passwordA wA in
  let '(resultB, wB') :=
    loginUser toLowerCase hashPassword now isoB email passwordB wB in
  resultA = Throw InvalidEmailOrPassword
  /\ resultB = Throw InvalidEmailOrPassword
  /\ message InvalidEmailOrPassword = "Invalid email or password"
  /\ loginAttempts wA' = loginAttempts wB'
  /\ localStorage wA' = localStorage wA
  /\ localStorage wB' = localStorage wB.
Proof.
  intros Hatt Hrl HA HB Hpw.
  rewrite !loginUser_eq, !check_rate_limit_eq.
  unfold rate_limited in Hrl. rewrite <- Hatt.
  set (e := toLowerCase email) in *.
  assert (HvA : forall w, localStorage w = localStorage wA ->
             verify hashPassword now isoA e passwordA w
             = (Throw InvalidEmailOrPassword, record_failure now e w)).
  { intros w Hw. unfold verify, account. rewrite Hw, HA. reflexivity. }
  assert (HvB : forall w, localStorage w = localStorage wB ->
             verify hashPassword now isoB e passwordB w
             = (Throw InvalidEmailOrPassword, record_failure now e w)).
  { intros w Hw. unfold verify.
    replace (account w e) with (account wB e)
      by (unfold account; rewrite Hw; reflexivity).
    rewrite HB. apply String.eqb_neq in Hpw. rewrite Hpw. reflexivity. }
  destruct (loginAttempts wA !! e) as [a|] eqn:Ha.
  - destruct (MAX_LOGIN_ATTEMPTS <=? count a)%nat; cbn [andb] in Hrl.
    + rewrite Hrl.
      rewrite (HvA (forget e wA) eq_refl), (HvB (forget e wB) eq_refl).
      unfold record_failure, forget. cbn [loginAttempts localStorage].
      rewrite Hatt. repeat (split; [reflexivity|]). reflexivity.
    + rewrite (HvA wA eq_refl), (HvB wB eq_refl).
      unfold record_failure. cbn [loginAttempts localStorage].
      rewrite Hatt. repeat (split; [reflexivity|]). reflexivity.
  - rewrite (HvA wA eq_refl), (HvB wB eq_refl).
    unfold record_failure. cbn [loginAttempts localStorage].
    rewrite Hatt. repeat (split; [reflexivity|]). reflexivity.
Qed.

End LoginProperties.

Lemma C6_lockout_after_five_failures_witness :
  let guess t w :=
    snd (loginUser ascii_toLowerCase sample_hash t "2024-01-03T09:00:00.000Z"
           "Alice@Example.com" "guess" w) in
  let w5 :=
    guess 240000 (guess 180000 (guess 120000 (guess 60000
      (guess 0 world_with_account)))) in
  loginUser ascii_toLowerCase sample_hash 300000 "2024-01-03T09:05:00.000Z"
    "Alice@Example.com" "correct horse" w5
  = (Throw (TooManyAttempts 14), w5)
  /\ exists w6,
       loginUser ascii_toLowerCase sample_hash 1140000 "2024-01-03T09:19:00.000Z"
         "Alice@Example.com" "correct horse" w5
       = (Return (set_lastLoginAt alice "2024-01-03T09:19:00.000Z"), w6)
       /\ loginAttempts w6 !! "alice@example.com" = None.
Proof.
  cbv zeta.
  set (guess := fun t w =>
    snd (loginUser ascii_toLowerCase sample_hash t "2024-01-03T09:00:00.000Z"
           "Alice@Example.com" "guess" w)).
  set (w1 := guess 0 world_with_account).
  set (w2 := guess 60000 w1).
  set (w3 := guess 120000 w2).
  set (w4 := guess 180000 w3).
  set (w5 := guess 240000 w4).
  destruct (C6_lockout_after_five_failures ascii_toLowerCase sample_hash
              "Alice@Example.com"
              world_with_account w1 w2 w3 w4 w5
              0 60000 120000 180000 240000
              "2024-01-03T09:00:00.000Z" "2024-01-03T09:00:00.000Z"
              "2024-01-03T09:00:00.000Z" "2024-01-03T09:00:00.000Z"
              "2024-01-03T09:00:00.000Z"
              "guess" "guess" "guess" "guess" "guess")
    as [Hlocked Hopen]; try (vm_compute; reflexivity).
  split.
  - exact (proj1 (Hlocked 300000 "2024-01-03T09:05:00.000Z" "correct horse"
                    eq_refl)).
  - apply (Hopen 1140000 "2024-01-03T09:19:00.000Z" "correct horse"
             "user_1_alice" alice).
    + vm_compute. discriminate.
    + vm_compute. reflexivity.
    + reflexivity.
Defined.

Lemma C7_unknown_email_and_wrong_password_alike_witness :
  fst (loginUser ascii_toLowerCase sample_hash 0 "2024-01-03T09:00:00.000Z"
         "alice@example.com" "guess"
         {| localStorage := ∅; loginAttempts := ∅ |})
  = fst (loginUser ascii_toLowerCase sample_hash 0 "2024-01-03T09:00:01.000Z"
           "alice@example.com" "guess" world_with_account).
Proof.
  set (wA := {| localStorage := ∅; loginAttempts := ∅ |}).
  assert (Hatt : loginAttempts wA = loginAttempts world_with_account)
    by reflexivity.
  assert (Hrl : rate_limited 0 (ascii_toLowerCase "alice@example.com") wA
                = false)
    by (vm_compute; reflexivity).
  assert (HA : localStorage wA
               !! user_email_key (ascii_toLowerCase "alice@example.com") = None)
    by (vm_compute; reflexivity).
  assert (HB : account world_with_account (ascii_toLowerCase "alice@example.com")
               = Some ("user_1_alice", alice))
    by (vm_compute; reflexivity).
  assert (Hpw : sample_hash "guess" <> passwordHash alice)
    by (vm_compute; discriminate).
  pose proof (C7_unknown_email_and_wrong_password_alike ascii_toLowerCase
                sample_hash 0
                "2024-01-03T09:00:00.000Z" "2024-01-03T09:00:01.000Z"
                "alice@example.com" "guess" "guess" wA world_with_account
                "user_1_alice" alice Hatt Hrl HA HB Hpw) as H.
  destruct (loginUser ascii_toLowerCase sample_hash 0 "2024-01-03T09:00:00.000Z"
              "alice@example.com" "guess" wA) as [rA wA'].
  destruct (loginUser ascii_toLowerCase sample_hash 0 "2024-01-03T09:00:01.000Z"
              "alice@example.com" "guess" world_with_account) as [rB wB'].
  destruct H as (-> & -> & _). reflexivity.
Defined.

(** ** Account creation *)

Lemma createUser_eq toLowerCase hashPassword now random created lastLogin
    email password name w :
  let uid := "user_" +:+ pretty now +:+ "_" +:+ random in
  let user :=
    {| userId := uid;
       email := toLowerCase email;
       passwordHash := hashPassword password;
       displayName := sanitizeInput name;
       createdAt := created;
       lastLoginAt := lastLogin |} in
  createUser toLowerCase hashPassword now random created lastLogin email
    password name w
  = (Return user,
     write (user_email_key (toLowerCase email)) (VString uid)
       (write (user_key uid) (VUser user) w)).
Proof.
  cbv zeta. unfold createUser. cbv zeta. unfold bind at 1.
  unfold try_catch, bind at 1, storageAPI.get.
  destruct (localStorage w !! user_email_key (toLowerCase email));
    reflexivity.
Qed.

(** C5 fails on the code: [createUser] throws its conflict error inside
    the [try] whose [catch] swallows everything, so the call goes on.
    Here the email of alice, in another case, is registered again: the
    call returns a new user and the index entry of the email now names
    the new user instead of alice. *)
Theorem C5_createUser_overwrites_taken_email
    (toLowerCase hashPassword : string -> string) :
  toLowerCase "Alice@Example.com" = "alice@example.com" ->
  let email := "Alice@Example.com" in
  let out :=
    createUser toLowerCase hashPassword 2 "k3x9q2m1z" "2024-01-03T09:00:00.000Z"
      "2024-01-03T09:00:00.000Z" email "hunter22" "Eve" world_with_account in
  localStorage world_with_account !! user_email_key (toLowerCase email)
  = Some (VString "user_1_alice")
  /\ fst out
     = Return {| userId := "user_2_k3x9q2m1z";
                 email := "alice@example.com";
                 passwordHash := hashPassword "hunter22";
                 displayName := "Eve";
                 createdAt := "2024-01-03T09:00:00.000Z";
                 lastLoginAt := "2024-01-03T09:00:00.000Z" |}
  /\ localStorage (snd out) !! user_email_key (toLowerCase email)
     = Some (VString "user_2_k3x9q2m1z")
  /\ (exists user,
        localStorage (snd out) !! user_key "user_2_k3x9q2m1z"
        = Some (VUser user)).
Proof.
  intros Hlower. cbv zeta. rewrite createUser_eq. cbv zeta. cbn [fst snd].
  rewrite Hlower.
  split; [vm_compute; reflexivity|].
  split; [reflexivity|].
  split.
  - unfold write. cbn [localStorage]. apply lookup_insert_eq.
  - eexists. unfold write. cbn [localStorage].
    rewrite lookup_insert_ne by (apply not_eq_sym; auto with keys).
    apply lookup_insert_eq.
Qed.

Lemma C5_createUser_overwrites_taken_email_witness :
  let out :=
    createUser ascii_toLowerCase sample_hash 2 "k3x9q2m1z"
      "2024-01-03T09:00:00.000Z" "2024-01-03T09:00:00.000Z"
      "Alice@Example.com" "hunter22" "Eve" world_with_account in
  localStorage world_with_account !! user_email_key "alice@example.com"
  = Some (VString "user_1_alice")
  /\ (exists user, fst out = Return user /\ userId user = "user_2_k3x9q2m1z")
  /\ localStorage (snd out) !! user_email_key "alice@example.com"
     = Some (VString "user_2_k3x9q2m1z").
Proof.
  destruct (C5_createUser_overwrites_taken_email ascii_toLowerCase sample_hash
              eq_refl) as (Hold & Hout & Hnew & _).
  cbv zeta. split; [exact Hold|].
  split; [eexists; split; [exact Hout|reflexivity]|exact Hnew].
Defined.

(** ** The audit records stay keyed by their own id *)

Lemma keyed_write key val w :
  audit_records_keyed w -> not_audit_key key ->
  audit_records_keyed (write key val w).
Proof.
  intros Hw Hk id v. unfold write. cbn [localStorage].
  rewrite lookup_insert_ne by apply Hk. apply Hw.
Qed.

Lemma keyed_write_audit a w :
  audit_records_keyed w ->
  audit_records_keyed (write (audit_key (auditId a)) (VAudit (json_audit a)) w).
Proof.
  intros Hw id v. unfold write. cbn [localStorage].
  destruct (decide (audit_key (auditId a) = audit_key id)) as [Heq|Hne].
  - rewrite Heq, lookup_insert_eq. intros [= <-].
    exists (json_audit a). split; [reflexivity|].
    apply audit_key_inj. exact Heq.
  - rewrite lookup_insert_ne by exact Hne. apply Hw.
Qed.

Lemma keyed_erase key w :
  audit_records_keyed w -> audit_records_keyed (erase key w).
Proof.
  intros Hw id v. unfold erase. cbn [localStorage].
  destruct (decide (key = audit_key id)) as [->|Hne].
  - rewrite lookup_delete_eq. discriminate.
  - rewrite lookup_delete_ne by exact Hne. apply Hw.
Qed.

Lemma keyed_empty : audit_records_keyed empty_world.
Proof.
  intros id v. cbn [empty_world localStorage]. rewrite lookup_empty.
  discriminate.
Qed.

Lemma keeps_ret {A : Type} (a : A) : keeps_keyed (ret a).
Proof. intros w Hw. exact Hw. Qed.

Lemma keeps_throw {A : Type} (e : Error) : keeps_keyed (@throw A e).
Proof. intros w Hw. exact Hw. Qed.

Lemma keeps_bind {A B : Type} (m : M A) (k : A -> M B) :
  keeps_keyed m -> (forall a, keeps_keyed (k a)) -> keeps_keyed (bind m k).
Proof.
  intros Hm Hk w Hw. specialize (Hm w Hw). unfold bind.
  destruct (m w) as [[a|e] w1]; cbn [snd] in *; [apply Hk|]; exact Hm.
Qed.

Lemma keeps_try_catch {A : Type} (m : M A) (h : Error -> M A) :
  keeps_keyed m -> (forall e, keeps_keyed (h e)) ->
  keeps_keyed (try_catch m h).
Proof.
  intros Hm Hh w Hw. specialize (Hm w Hw). unfold try_catch.
  destruct (m w) as [[a|e] w1]; cbn [snd] in *; [|apply Hh]; exact Hm.
Qed.

Lemma keeps_get key : keeps_keyed (storageAPI.get key).
Proof.
  intros w Hw. unfold storageAPI.get.
  destruct (localStorage w !! key); exact Hw.
Qed.

Lemma keeps_set key val :
  not_audit_key key -> keeps_keyed (storageAPI.set key val).
Proof. intros Hk w Hw. apply (keyed_write key val w Hw Hk). Qed.

Lemma keeps_set_audit a :
  keeps_keyed
    (storageAPI.set (audit_key (auditId a)) (JSON.stringify_AuditRecord a)).
Proof. intros w Hw. apply (keyed_write_audit a w Hw). Qed.

Lemma keeps_delete key : keeps_keyed (storageAPI.delete key).
Proof. intros w Hw. apply (keyed_erase key w Hw). Qed.

Lemma keeps_attempts_get key : keeps_keyed (attempts.get key).
Proof. intros w Hw. exact Hw. Qed.

Lemma keeps_attempts_set key a : keeps_keyed (attempts.set key a).
Proof. intros w Hw. exact Hw. Qed.

Lemma keeps_attempts_delete key : keeps_keyed (attempts.delete key).
Proof. intros w Hw. exact Hw. Qed.

Lemma keeps_for_of {A : Type} (l : list A) (body : A -> M unit) :
  (forall a, keeps_keyed (body a)) -> keeps_keyed (for_of l body).
Proof.
  intros Hb. induction l as [|a l IH]; cbn [for_of].
  - apply keeps_ret.
  - apply keeps_bind; [apply Hb|intros _; exact IH].
Qed.

Lemma not_audit_user id : not_audit_key (user_key id).
Proof. intros a. key_discriminate. Qed.
Lemma not_audit_user_email e : not_audit_key (user_email_key e).
Proof. intros a. key_discriminate. Qed.
Lemma not_audit_project id : not_audit_key (project_key id).
Proof. intros a. key_discriminate. Qed.
Lemma not_audit_user_projects id : not_audit_key (user_projects_key id).
Proof. intros a. key_discriminate. Qed.
Lemma not_audit_index id : not_audit_key (project_audits_key id).
Proof. intros a. key_discriminate. Qed.
Lemma not_audit_session : not_audit_key "current_session".
Proof. intros a. key_discriminate. Qed.

#[local] Hint Resolve not_audit_user not_audit_user_email not_audit_project
  not_audit_user_projects not_audit_index not_audit_session : keys.

(** Walks through a computation built from the operations above. *)
Ltac keeps_step :=
  match goal with
  | |- keeps_keyed (bind _ _) => apply keeps_bind; [|intros ?]
  | |- keeps_keyed (try_catch _ _) => apply keeps_try_catch; [|intros ?]
  | |- keeps_keyed (ret _) => apply keeps_ret
  | |- keeps_keyed (throw _) => apply keeps_throw
  | |- keeps_keyed (storageAPI.get _) => apply keeps_get
  | |- keeps_keyed (storageAPI.delete _) => apply keeps_delete
  | |- keeps_keyed (storageAPI.set (audit_key (auditId ?a))
                      (JSON.stringify_AuditRecord ?a)) =>
      apply keeps_set_audit
  | |- keeps_keyed (storageAPI.set _ _) =>
      apply keeps_set; solve [auto with keys]
  | |- keeps_keyed (attempts.get _) => apply keeps_attempts_get
  | |- keeps_keyed (attempts.set _ _) => apply keeps_attempts_set
  | |- keeps_keyed (attempts.delete _) => apply keeps_attempts_delete
  | |- keeps_keyed (for_of _ _) => apply keeps_for_of; intros ?
  | |- keeps_keyed (match ?x with _ => _ end) => destruct x
  end.

Ltac keeps := cbv zeta; unfold store_session; cbv zeta; repeat keeps_step.

Lemma keeps_createUser lower h now random created lastLogin email password
    name :
  keeps_keyed
    (createUser lower h now random created lastLogin email password name).
Proof. unfold createUser. keeps. Qed.

Lemma keeps_loginUser lower h now iso email password :
  keeps_keyed (loginUser lower h now iso email password).
Proof.
  unfold loginUser, check_rate_limit, raw_value, JSON.parse_User. keeps.
Qed.

Lemma keeps_setCurrentUser now token userId :
  keeps_keyed (setCurrentUser now token userId).
Proof. unfold setCurrentUser. keeps. Qed.

Lemma keeps_logout : keeps_keyed logout.
Proof. unfold logout. keeps. Qed.

Lemma keeps_getCurrentUser parse now refreshedAt token :
  keeps_keyed (getCurrentUser parse now refreshedAt token).
Proof.
  unfold getCurrentUser, logout, raw_value, JSON.parse_User. keeps.
Qed.

Lemma keeps_createProject now random created updated userId name url desc :
  keeps_keyed (createProject now random created updated userId name url desc).
Proof. unfold createProject, JSON.parse_ids. keeps. Qed.

Lemma keeps_getProject projectId : keeps_keyed (getProject projectId).
Proof. unfold getProject, JSON.parse_Project. keeps. Qed.

Lemma keeps_updateProject iso projectId updates :
  keeps_keyed (updateProject iso projectId updates).
Proof.
  unfold updateProject. apply keeps_bind; [apply keeps_getProject|].
  intros [p|]; keeps.
Qed.

Lemma keeps_collect_audits auditIds : forall audits,
  keeps_keyed (collect_audits auditIds audits).
Proof.
  induction auditIds as [|id ids IH]; intros audits; cbn [collect_audits].
  - keeps.
  - apply keeps_bind; [unfold JSON.parse_AuditRecord; keeps|].
    intros audits'. apply IH.
Qed.

Lemma keeps_getProjectAudits projectId :
  keeps_keyed (getProjectAudits projectId).
Proof.
  unfold getProjectAudits, JSON.parse_ids. cbv zeta.
  apply keeps_try_catch; [|intros ?; keeps].
  apply keeps_bind; [keeps|]. intros v.
  apply keeps_bind; [destruct v; keeps|]. intros ids.
  apply keeps_bind; [apply keeps_collect_audits|]. intros audits. keeps.
Qed.

Lemma keeps_deleteProject projectId userId :
  keeps_keyed (deleteProject projectId userId).
Proof.
  unfold deleteProject, JSON.parse_ids.
  apply keeps_bind; [apply keeps_getProjectAudits|]. intros audits. keeps.
Qed.

Lemma keeps_saveAudit now random analyzed ts updated projectId userId report :
  keeps_keyed
    (saveAudit now random analyzed ts updated projectId userId report).
Proof.
  unfold saveAudit, JSON.parse_ids.
  apply keeps_bind; [apply keeps_getProject|].
  intros [p|]; [|keeps].
  destruct (negb _); [keeps|]. cbv zeta.
  apply keeps_bind.
  { apply (keeps_set_audit
             (new_audit ("aud_" +:+ pretty now +:+ "_" +:+ random) projectId
                userId (auditCount p + 1) ts
                (generateAuditReport analyzed (violations report)))). }
  intros _. apply keeps_bind; [keeps|].
  intros _. apply keeps_bind; [apply keeps_updateProject|]. intros _. keeps.
Qed.

Lemma keeps_updateAuditNotes auditId text :
  keeps_keyed (updateAuditNotes auditId text).
Proof.
  intros w Hw. unfold updateAuditNotes, bind, storageAPI.get.
  destruct (localStorage w !! audit_key auditId) as [v|] eqn:Hv; [|exact Hw].
  destruct (Hw auditId v Hv) as (a & -> & Ha).
  cbn [JSON.parse_AuditRecord ret storageAPI.set snd].
  rewrite <- Ha at 1.
  apply (keyed_write_audit
           (set_notes (json_audit a) (sanitizeInput text)) w Hw).
Qed.

Lemma keeps_deleteAudit auditId projectId :
  keeps_keyed (deleteAudit auditId projectId).
Proof. unfold deleteAudit, JSON.parse_ids. keeps. Qed.

Lemma step_keeps_keyed lower parse h w w' :
  step lower parse h w w' -> audit_records_keyed w -> audit_records_keyed w'.
Proof.
  intros Hstep Hw. destruct Hstep.
  - apply keeps_createUser, Hw.
  - apply keeps_loginUser, Hw.
  - apply keeps_getCurrentUser, Hw.
  - apply keeps_setCurrentUser, Hw.
  - apply keeps_logout, Hw.
  - apply keeps_createProject, Hw.
  - apply keeps_updateProject, Hw.
  - apply keeps_deleteProject, Hw.
  - apply keeps_saveAudit, Hw.
  - apply keeps_updateAuditNotes, Hw.
  - apply keeps_deleteAudit, Hw.
Qed.

(** In every world the service gets to, the audit records are keyed by
    their own id. *)
Lemma reachable_keyed lower parse h w :
  reachable lower parse h w -> audit_records_keyed w.
Proof.
  induction 1 as [|w w' _ IH Hstep]; [apply keyed_empty|].
  exact (step_keeps_keyed lower parse h w w' Hstep IH).
Qed.
(** ** Listing and deleting audits *)

Lemma collect_audits_eq w auditIds : forall audits,
  collect_audits auditIds audits w
  = (Return (audits ++ found_audits w auditIds)%list, w).
Proof.
  induction auditIds as [|id ids IH]; intros audits;
    cbn [collect_audits found_audits omap list_omap].
  - rewrite app_nil_r. reflexivity.
  - unfold bind at 1, try_catch, bind at 1, storageAPI.get, stored_audit.
    destruct (localStorage w !! audit_key id) as [[| | |a| |]|];
      cbn [JSON.parse_AuditRecord throw ret bind]; rewrite IH;
      try reflexivity.
    rewrite <- app_assoc. reflexivity.
Qed.

Lemma getProjectAudits_eq projectId w :
  getProjectAudits projectId w
  = (Return (sort_by_version_desc
               (found_audits w (stored_ids w (project_audits_key projectId)))),
     w).
Proof.
  unfold getProjectAudits, stored_ids. cbv zeta.
  unfold try_catch, bind at 1, storageAPI.get.
  destruct (localStorage w !! project_audits_key projectId)
    as [[| | | |ids|]|]; try reflexivity.
  cbn [JSON.parse_ids]. unfold bind at 1. cbn [ret].
  unfold bind. rewrite collect_audits_eq. reflexivity.
Qed.

Lemma for_of_erase audits : forall w,
  for_of audits (fun audit => storageAPI.delete (audit_key (auditId audit))) w
  = (Return tt, erase_audits audits w).
Proof.
  induction audits as [|a l IH]; intros w; cbn [for_of]; [reflexivity|].
  unfold bind. cbn [storageAPI.delete]. apply IH.
Qed.

Lemma unlist_project_eq projectId userId w :
  try_catch
    (result <- storageAPI.get (user_projects_key userId) ;;
     projectIds <- JSON.parse_ids result ;;
     storageAPI.set (user_projects_key userId)
       (VIds (List.filter (fun id => negb (String.eqb id projectId))
                projectIds)))
    (fun _ => ret tt) w
  = (Return tt, unlist_project projectId userId w).
Proof.
  unfold try_catch, bind, storageAPI.get, unlist_project.
  destruct (localStorage w !! user_projects_key userId) as [[]|];
    reflexivity.
Qed.

Lemma deleteProject_eq projectId userId w :
  deleteProject projectId userId w
  = (Return tt,
     unlist_project projectId userId
       (erase (project_key projectId)
          (erase (project_audits_key projectId)
             (erase_audits
                (sort_by_version_desc
                   (found_audits w
                      (stored_ids w (project_audits_key projectId))))
                w)))).
Proof.
  unfold deleteProject. unfold bind at 1. rewrite getProjectAudits_eq.
  unfold bind at 1. rewrite for_of_erase.
  unfold bind at 1. cbn [storageAPI.delete].
  unfold bind at 1. cbn [storageAPI.delete].
  cbv zeta. apply unlist_project_eq.
Qed.

Lemma insert_by_version_In a b l :
  In a (insert_by_version b l) <-> a = b \/ In a l.
Proof.
  induction l as [|c l IH]; cbn [insert_by_version].
  - cbn [In]. intuition congruence.
  - destruct (auditVersion c - auditVersion b <=? 0); cbn [In].
    + intuition congruence.
    + rewrite IH. intuition congruence.
Qed.

Lemma sort_by_version_desc_In a l :
  In a (sort_by_version_desc l) <-> In a l.
Proof.
  unfold sort_by_version_desc.
  induction l as [|b l IH]; cbn [fold_right]; [reflexivity|].
  rewrite insert_by_version_In, IH. cbn [In]. intuition congruence.
Qed.

Lemma found_audits_In w id a ids :
  In id ids -> stored_audit w id = Some a -> In a (found_audits w ids).
Proof.
  intros Hin Ha. unfold found_audits.
  apply list_elem_of_In, list_elem_of_omap. exists id.
  split; [apply list_elem_of_In; exact Hin|exact Ha].
Qed.

Lemma erase_audits_None audits : forall w key,
  localStorage w !! key = None ->
  localStorage (erase_audits audits w) !! key = None.
Proof.
  induction audits as [|a l IH]; intros w key Hk; cbn [erase_audits fold_left];
    [exact Hk|].
  apply (IH (erase (audit_key (auditId a)) w)).
  unfold erase. cbn [localStorage]. rewrite lookup_delete_None. auto.
Qed.

Lemma erase_audits_In audits : forall w a,
  In a audits ->
  localStorage (erase_audits audits w) !! audit_key (auditId a) = None.
Proof.
  induction audits as [|b l IH]; intros w a Hin; [destruct Hin|].
  cbn [erase_audits fold_left]. destruct Hin as [->|Hin].
  - apply (erase_audits_None l (erase (audit_key (auditId a)) w)).
    unfold erase. cbn [localStorage]. apply lookup_delete_eq.
  - apply (IH (erase (audit_key (auditId b)) w) a Hin).
Qed.

Lemma unlist_project_lookup_ne projectId userId w key :
  key <> user_projects_key userId ->
  localStorage (unlist_project projectId userId w) !! key
  = localStorage w !! key.
Proof.
  intros Hne. unfold unlist_project.
  destruct (localStorage w !! user_projects_key userId) as [[]|];
    try reflexivity.
  unfold write. cbn [localStorage].
  apply lookup_insert_ne, not_eq_sym, Hne.
Qed.

(** C8 fails on the code: [deleteProject] never compares its [userId]
    with the owner of the project (as [saveAudit] does); the id only names
    the project index to filter.  Here mallory deletes the project of
    alice: the project record and its audit record are gone. *)
Theorem C8_deleteProject_by_another_user :
  let stranger := "user_9_mallory" in
  let out := deleteProject "proj_1_shop" stranger world_with_audit in
  (exists project,
     stored_project world_with_audit "proj_1_shop" = Some project
     /\ project_userId project = "user_1_alice"
     /\ project_userId project <> stranger)
  /\ stored_ids world_with_audit (project_audits_key "proj_1_shop")
     = ["aud_2_k3x9q2m1z"]
  /\ is_Some (stored_audit world_with_audit "aud_2_k3x9q2m1z")
  /\ fst out = Return tt
  /\ localStorage (snd out) !! project_key "proj_1_shop" = None
  /\ localStorage (snd out) !! audit_key "aud_2_k3x9q2m1z" = None.
Proof.
  cbv zeta. split.
  { eexists. split; [vm_compute; reflexivity|].
    split; [reflexivity|]. vm_compute. discriminate. }
  split; [vm_compute; reflexivity|].
  split; [vm_compute; eexists; reflexivity|].
  split; [vm_compute; reflexivity|].
  split; vm_compute; reflexivity.
Qed.

(** C9: in every world the service gets to, [deleteProject] returns, and
    afterwards no id of the project's audit index has a record in the
    store, the index and the project record are gone, and
    [getProjectAudits] for the project returns the empty list. *)
Theorem C9_deleteProject_cascades
    (toLowerCase : string -> string) (JSON_parse_text : string -> ParsedText)
    (hashPassword : string -> string) projectId userId w :
  reachable toLowerCase JSON_parse_text hashPassword w ->
  let out := deleteProject projectId userId w in
  fst out = Return tt
  /\ (forall auditId,
        In auditId (stored_ids w (project_audits_key projectId)) ->
        localStorage (snd out) !! audit_key auditId = None)
  /\ localStorage (snd out) !! project_audits_key projectId = None
  /\ localStorage (snd out) !! project_key projectId = None
  /\ getProjectAudits projectId (snd out) = (Return [], snd out).
Proof.
  intros Hreach. apply reachable_keyed in Hreach as Hkeyed.
  cbv zeta. rewrite deleteProject_eq. cbn [fst snd].
  set (audits := sort_by_version_desc _).
  assert (Hindex :
    localStorage
      (unlist_project projectId userId
         (erase (project_key projectId)
            (erase (project_audits_key projectId) (erase_audits audits w))))
      !! project_audits_key projectId = None).
  { rewrite unlist_project_lookup_ne by auto with keys.
    unfold erase at 1. cbn [localStorage].
    rewrite lookup_delete_ne by auto with keys.
    unfold erase. cbn [localStorage]. apply lookup_delete_eq. }
  split; [reflexivity|]. split; [|split; [exact Hindex|split]].
  - intros id Hin.
    rewrite unlist_project_lookup_ne by auto with keys.
    unfold erase at 1. cbn [localStorage].
    rewrite lookup_delete_ne by (apply not_eq_sym; auto with keys).
    unfold erase at 1. cbn [localStorage].
    rewrite lookup_delete_ne by (apply not_eq_sym; auto with keys).
    destruct (localStorage w !! audit_key id) as [v|] eqn:Hv;
      [|apply erase_audits_None; exact Hv].
    destruct (Hkeyed id v Hv) as (a & -> & <-).
    apply (erase_audits_In audits w (json_audit a)). unfold audits.
    apply sort_by_version_desc_In.
    apply (found_audits_In w (auditId a) (json_audit a) _ Hin).
    unfold stored_audit. rewrite Hv. reflexivity.
  - rewrite unlist_project_lookup_ne by auto with keys.
    unfold erase. cbn [localStorage]. apply lookup_delete_eq.
  - rewrite getProjectAudits_eq. unfold stored_ids at 1.
    rewrite Hindex. reflexivity.
Qed.

Lemma C9_deleteProject_cascades_witness :
  reachable ascii_toLowerCase sample_parse_text sample_hash world_with_audit
  /\ In "aud_2_k3x9q2m1z"
       (stored_ids world_with_audit (project_audits_key "proj_1_shop"))
  /\ is_Some (stored_audit world_with_audit "aud_2_k3x9q2m1z")
  /\ localStorage
       (snd (deleteProject "proj_1_shop" "user_1_alice" world_with_audit))
     !! audit_key "aud_2_k3x9q2m1z" = None
  /\ getProjectAudits "proj_1_shop"
       (snd (deleteProject "proj_1_shop" "user_1_alice" world_with_audit))
     = (Return [],
        snd (deleteProject "proj_1_shop" "user_1_alice" world_with_audit)).
Proof.
  assert (Hreach : reachable ascii_toLowerCase sample_parse_text sample_hash
                     world_with_audit).
  { unfold world_with_audit.
    eapply reachable_step; [|apply step_saveAudit].
    eapply reachable_step; [|apply step_createProject].
    apply reachable_empty. }
  assert (Hin : In "aud_2_k3x9q2m1z"
                  (stored_ids world_with_audit
                     (project_audits_key "proj_1_shop")))
    by (vm_compute; left; reflexivity).
  destruct (C9_deleteProject_cascades ascii_toLowerCase sample_parse_text
              sample_hash "proj_1_shop"
              "user_1_alice" world_with_audit Hreach)
    as (_ & Haudits & _ & _ & Hlist).
  split; [exact Hreach|]. split; [exact Hin|].
  split; [vm_compute; eexists; reflexivity|].
  split; [exact (Haudits _ Hin)|exact Hlist].
Defined.


(** * Further properties of the scoring engine *)

Lemma deduct_inherited x v :
  inherited (property_key (severity v)) = true -> deduct x v = NaN.
Proof.
  unfold deduct, inherited, Object_prototype_keys. cbn [existsb].
  rewrite !orb_true_iff.
  intros H.
  repeat (destruct H as [H|H];
          [apply String.eqb_eq in H; rewrite H; destruct x; reflexivity|]).
  discriminate H.
Qed.

Lemma fold_deduct_eq violations : forall x,
  fold_left deduct violations (Num x)
  = if any_inherited violations then NaN
    else Num (x - spec_penalty violations).
Proof.
  induction violations as [|v vs IH]; intros x; cbn [fold_left].
  - change (spec_penalty []) with 0. cbn. f_equal. lia.
  - change (spec_penalty (v :: vs))
      with (spec_weight (severity v) + spec_penalty vs).
    unfold any_inherited. cbn [existsb]. fold (any_inherited vs).
    destruct (inherited (property_key (severity v))) eqn:Hv.
    + rewrite (deduct_inherited _ _ Hv), fold_deduct_NaN. reflexivity.
    + rewrite (deduct_plain _ _ Hv), IH. cbn [orb].
      destruct (any_inherited vs); [reflexivity|]. f_equal. lia.
Qed.

Lemma score_eq violations :
  calculateAccessibilityScore violations
  = if any_inherited violations then NaN else Num (spec_score violations).
Proof.
  unfold calculateAccessibilityScore. rewrite fold_deduct_eq.
  destruct (any_inherited violations); reflexivity.
Qed.

(** X1: the score is [NaN] exactly when some violation carries a severity
    that names a property inherited from [Object.prototype]; one such
    violation spoils the score of the whole list, wherever it stands. *)
Theorem score_NaN_iff_inherited_severity (violations : list Violation) :
  calculateAccessibilityScore violations = NaN
  <-> Exists (fun v => inherited (property_key (severity v)) = true)
        violations.
Proof.
  rewrite score_eq, List.Exists_exists.
  unfold any_inherited.
  destruct (existsb _ violations) eqn:He.
  - apply existsb_exists in He. split; [intros _; exact He|reflexivity].
  - split; [discriminate|].
    intros Hex. apply existsb_exists in Hex. congruence.
Qed.

Lemma score_plain violations :
  Forall plain_severity violations ->
  calculateAccessibilityScore violations = Num (spec_score violations).
Proof.
  intros Hall. unfold calculateAccessibilityScore, spec_score.
  rewrite (fold_deduct_plain _ _ Hall). reflexivity.
Qed.

Lemma any_inherited_Permutation vs vs' :
  Permutation vs vs' -> any_inherited vs = any_inherited vs'.
Proof.
  unfold any_inherited.
  induction 1 as [|v l l' _ IH|a b l|l1 l2 l3 _ IH1 _ IH2]; cbn [existsb].
  - reflexivity.
  - rewrite IH. reflexivity.
  - rewrite !orb_assoc, (orb_comm (inherited _)). reflexivity.
  - congruence.
Qed.

Lemma spec_penalty_Permutation vs vs' :
  Permutation vs vs' -> spec_penalty vs = spec_penalty vs'.
Proof.
  unfold spec_penalty.
  induction 1 as [|v l l' _ IH|a b l|l1 l2 l3 _ IH1 _ IH2]; cbn [fold_right].
  - reflexivity.
  - rewrite IH. reflexivity.
  - lia.
  - congruence.
Qed.

(** X2: the score does not depend on the order of the violations. *)
Theorem score_order_independent (vs vs' : list Violation) :
  Permutation vs vs' ->
  calculateAccessibilityScore vs = calculateAccessibilityScore vs'.
Proof.
  intros Hp. rewrite !score_eq, (any_inherited_Permutation _ _ Hp).
  unfold spec_score. rewrite (spec_penalty_Permutation _ _ Hp). reflexivity.
Qed.

Lemma score_order_independent_witness :
  calculateAccessibilityScore
    [violation_of (Some "low") "1.1.1"; violation_of (Some "critical") "1.4.3"]
  = calculateAccessibilityScore
      [violation_of (Some "critical") "1.4.3"; violation_of (Some "low") "1.1.1"].
Proof.
  apply (score_order_independent
           [violation_of (Some "low") "1.1.1";
            violation_of (Some "critical") "1.4.3"]).
  apply perm_swap.
Defined.

Lemma spec_penalty_app vs ws :
  spec_penalty (vs ++ ws) = spec_penalty vs + spec_penalty ws.
Proof.
  unfold spec_penalty. induction vs as [|v vs IH]; cbn [app fold_right]; lia.
Qed.

(** X3: more violations never raise the score: when no severity names an
    inherited property, the score of a list extended by further
    violations is at most the score of the list. *)
Theorem score_never_rises (vs ws : list Violation) :
  Forall plain_severity (vs ++ ws) ->
  exists before after,
    calculateAccessibilityScore vs = Num before
    /\ calculateAccessibilityScore (vs ++ ws) = Num after
    /\ after <= before.
Proof.
  intros Hall. apply Forall_app in Hall as Hsplit. destruct Hsplit as [Hvs _].
  exists (spec_score vs), (spec_score (vs ++ ws)).
  split; [apply (score_plain vs Hvs)|].
  split; [apply (score_plain (vs ++ ws) Hall)|].
  unfold spec_score. rewrite spec_penalty_app.
  pose proof (spec_penalty_nonneg ws). lia.
Qed.

Lemma score_never_rises_witness :
  exists before after,
    calculateAccessibilityScore [violation_of (Some "high") "1.4.3"]
    = Num before
    /\ calculateAccessibilityScore
         ([violation_of (Some "high") "1.4.3"]
          ++ [violation_of (Some "medium") "2.4.7"; violation_of None "1.1.1"])
       = Num after
    /\ after <= before.
Proof.
  apply (score_never_rises [violation_of (Some "high") "1.4.3"]
           [violation_of (Some "medium") "2.4.7"; violation_of None "1.1.1"]).
  repeat constructor.
Defined.

Lemma severity_flags v :
  let c := has_severity Severity.CRITICAL v in
  let h := has_severity Severity.HIGH v in
  let m := has_severity Severity.MEDIUM v in
  let l := has_severity Severity.LOW v in
  (c, h, m, l) = (true, false, false, false)
  \/ (c, h, m, l) = (false, true, false, false)
  \/ (c, h, m, l) = (false, false, true, false)
  \/ (c, h, m, l) = (false, false, false, true)
  \/ (c, h, m, l) = (false, false, false, false).
Proof.
  unfold has_severity, Severity.CRITICAL, Severity.HIGH, Severity.MEDIUM,
    Severity.LOW.
  destruct (severity v) as [s|]; cbv zeta; [|auto 6].
  destruct (String.eqb s "critical") eqn:Hc;
    [apply String.eqb_eq in Hc; subst s; auto|].
  destruct (String.eqb s "high") eqn:Hh;
    [apply String.eqb_eq in Hh; subst s; auto|].
  destruct (String.eqb s "medium") eqn:Hm;
    [apply String.eqb_eq in Hm; subst s; auto 6|].
  destruct (String.eqb s "low"); auto 6.
Qed.

(** X4: in the summary of a report the four severity counts add up to at
    most the total, and to the total exactly when every violation carries
    one of the four severities of the enum; a violation with another or
    no severity is in the total and in no severity count. *)
Theorem summary_counts_partition (analyzedAt : string)
    (violations : list Violation) :
  let s := summary (generateAuditReport analyzedAt violations) in
  total_violations s = length violations
  /\ (critical s + high s + medium s + low s <= total_violations s)%nat
  /\ ((critical s + high s + medium s + low s)%nat = total_violations s
      <-> forall v, In v violations -> known_severity v = true).
Proof.
  cbv zeta. cbn [summary generateAuditReport total_violations critical high
                   medium low].
  split; [reflexivity|].
  induction violations as [|v vs [IHle IHeq]].
  - cbn. split; [lia|]. split; [intros _ v []|reflexivity].
  - cbn [List.filter length].
    pose proof (severity_flags v) as Hf. cbv zeta in Hf.
    assert (Hk : known_severity v
                 = (has_severity Severity.CRITICAL v
                    || has_severity Severity.HIGH v
                    || has_severity Severity.MEDIUM v
                    || has_severity Severity.LOW v)) by reflexivity.
    destruct Hf as [Hf|[Hf|[Hf|[Hf|Hf]]]];
      injection Hf as Hc Hh Hm Hl; rewrite Hc, Hh, Hm, Hl in *;
      cbn [length orb] in *.
    1-4: split; [lia|]; split;
      [ intros Hsum v' [<-|Hin]; [exact Hk|apply IHeq; [lia|exact Hin]]
      | intros Hall;
        assert (Hvs : forall v', In v' vs -> known_severity v' = true)
          by (intros v' Hin; apply Hall; right; exact Hin);
        apply IHeq in Hvs; lia ].
    split; [lia|]. split; [lia|].
    intros Hall. specialize (Hall v (or_introl eq_refl)). congruence.
Qed.

Lemma checkLevel_app vs ws regex :
  checkLevel (vs ++ ws) regex
  = (checkLevel vs regex ++ checkLevel ws regex)%list.
Proof. unfold checkLevel. apply List.filter_app. Qed.

(** X5: compliance composes over concatenation: a list passes Level A
    (Level AA) exactly when both parts do, and the match counts add up. *)
Theorem compliance_of_concatenation (vs ws : list Violation) :
  let whole := determineWCAGCompliance (vs ++ ws) in
  let left := determineWCAGCompliance vs in
  let right := determineWCAGCompliance ws in
  pass (level_a whole) = pass (level_a left) && pass (level_a right)
  /\ pass (level_aa whole) = pass (level_aa left) && pass (level_aa right)
  /\ level_violations (level_a whole)
     = (level_violations (level_a left) + level_violations (level_a right))%nat
  /\ level_violations (level_aa whole)
     = (level_violations (level_aa left) + level_violations (level_aa right))%nat.
Proof.
  cbv zeta. unfold determineWCAGCompliance.
  cbn [pass level_violations level_a level_aa].
  rewrite !checkLevel_app, !length_app.
  destruct (length (checkLevel vs levelA_regex));
    destruct (length (checkLevel ws levelA_regex));
    destruct (length (checkLevel vs levelAA_regex));
    destruct (length (checkLevel ws levelAA_regex));
    cbn; repeat split; reflexivity.
Qed.

Lemma atoms_meet_sound a b c :
  atom_matches a c = true -> atom_matches b c = true ->
  atoms_meet a b = true.
Proof.
  destruct a as [d|lo hi], b as [e|lo' hi']; cbn [atom_matches atoms_meet].
  - intros H1 H2. apply Ascii.eqb_eq in H1, H2. subst.
    apply Ascii.eqb_refl.
  - intros H1 H2. apply Ascii.eqb_eq in H1. subst. exact H2.
  - intros H1 H2. apply Ascii.eqb_eq in H2. subst. exact H1.
  - rewrite !andb_true_iff, !N.leb_le. lia.
Qed.

Lemma patterns_meet_sound p : forall q s,
  starts_with p s = true -> starts_with q s = true ->
  patterns_meet p q = true.
Proof.
  induction p as [|a p IH]; intros q s; [reflexivity|].
  destruct q as [|b q]; [reflexivity|].
  cbn [starts_with patterns_meet]. destruct s as [|c s]; [discriminate|].
  rewrite !andb_true_iff. intros [Ha Hp] [Hb Hq].
  split; [exact (atoms_meet_sound a b c Ha Hb)|exact (IH q s Hp Hq)].
Qed.

Lemma regex_apart_sound r1 r2 s :
  regex_apart r1 r2 = true -> test r1 s = true -> test r2 s = false.
Proof.
  unfold regex_apart, test. intros Hapart H1.
  apply existsb_exists in H1 as [p [Hp Hps]].
  destruct (existsb _ r2) eqn:H2; [|reflexivity].
  apply existsb_exists in H2 as [q [Hq Hqs]].
  rewrite forallb_forall in Hapart. specialize (Hapart p Hp).
  rewrite forallb_forall in Hapart. specialize (Hapart q Hq).
  rewrite (patterns_meet_sound p q s Hps Hqs) in Hapart. discriminate.
Qed.

Lemma filter_lengths_disjoint {A : Type} (f g : A -> bool) (l : list A) :
  (forall x, f x = true -> g x = false) ->
  (length (List.filter f l) + length (List.filter g l) <= length l)%nat.
Proof.
  intros Hfg. induction l as [|a l IH]; cbn [List.filter length]; [lia|].
  destruct (f a) eqn:Hf.
  - rewrite (Hfg a Hf). cbn [length]. lia.
  - destruct (g a); cbn [length]; lia.
Qed.

(** X6: no criterion string matches both a Level-A and a Level-AA pattern,
    so no violation is counted at both levels and the two match counts
    add up to at most the number of violations. *)
Theorem levelA_and_levelAA_never_both (violations : list Violation) :
  (forall criterion,
     test levelA_regex criterion = true ->
     test levelAA_regex criterion = false)
  /\ (level_violations (level_a (determineWCAGCompliance violations))
      + level_violations (level_aa (determineWCAGCompliance violations))
      <= length violations)%nat.
Proof.
  assert (Hapart : forall criterion,
             test levelA_regex criterion = true ->
             test levelAA_regex criterion = false).
  { intros criterion. apply regex_apart_sound. vm_compute. reflexivity. }
  split; [exact Hapart|].
  unfold determineWCAGCompliance, checkLevel.
  cbn [level_violations level_a level_aa].
  apply filter_lengths_disjoint. intros v. apply Hapart.
Qed.

Lemma levelA_and_levelAA_never_both_witness :
  test levelA_regex "2.4.4 Link Purpose" = true
  /\ test levelAA_regex "2.4.4 Link Purpose" = false.
Proof.
  split; [reflexivity|].
  apply (proj1 (levelA_and_levelAA_never_both [])). reflexivity.
Defined.


(** * Further properties of the storage service *)

(** ** Sanitizing *)

Lemma contains_app c s t :
  contains c (s +:+ t) = contains c s || contains c t.
Proof.
  induction s as [|d s IH]; simpl; [reflexivity|].
  rewrite IH, orb_assoc. reflexivity.
Qed.

Lemma replace_all_removes c r s :
  contains c r = false -> contains c (replace_all c r s) = false.
Proof.
  intros Hr. induction s as [|d s IH]; cbn [replace_all]; [reflexivity|].
  destruct (Ascii.eqb d c) eqn:Hd.
  - rewrite contains_app, Hr, IH. reflexivity.
  - cbn [contains]. rewrite Hd, IH. reflexivity.
Qed.

Lemma replace_all_keeps_out c r d s :
  contains d r = false -> contains d s = false ->
  contains d (replace_all c r s) = false.
Proof.
  intros Hr. induction s as [|e s IH]; cbn [replace_all contains];
    [reflexivity|].
  rewrite orb_false_iff. intros [He Hs].
  destruct (Ascii.eqb e c).
  - rewrite contains_app, Hr, (IH Hs). reflexivity.
  - cbn [contains]. rewrite He, (IH Hs). reflexivity.
Qed.

Lemma replace_all_absent c r s :
  contains c s = false -> replace_all c r s = s.
Proof.
  induction s as [|d s IH]; cbn [replace_all contains]; [reflexivity|].
  rewrite orb_false_iff. intros [Hd Hs]. rewrite Hd, (IH Hs). reflexivity.
Qed.

Lemma sanitizeInput_contains input c :
  In c escaped_characters -> contains c (sanitizeInput input) = false.
Proof.
  unfold escaped_characters, sanitizeInput. cbn [In].
  intros [<-|[<-|[<-|[<-|[<-|[]]]]]].
  - do 4 (apply replace_all_keeps_out; [reflexivity|]).
    apply replace_all_removes. reflexivity.
  - do 3 (apply replace_all_keeps_out; [reflexivity|]).
    apply replace_all_removes. reflexivity.
  - do 2 (apply replace_all_keeps_out; [reflexivity|]).
    apply replace_all_removes. reflexivity.
  - apply replace_all_keeps_out; [reflexivity|].
    apply replace_all_removes. reflexivity.
  - apply replace_all_removes. reflexivity.
Qed.

Lemma sanitizeInput_clean input :
  (forall c, In c escaped_characters -> contains c input = false) ->
  sanitizeInput input = input.
Proof.
  intros Hclean. unfold sanitizeInput.
  rewrite (replace_all_absent "<") by (apply Hclean; cbn; auto).
  rewrite (replace_all_absent ">") by (apply Hclean; cbn; auto).
  rewrite (replace_all_absent "034") by (apply Hclean; cbn; auto).
  rewrite (replace_all_absent "'") by (apply Hclean; cbn; auto 6).
  apply replace_all_absent. apply Hclean. cbn. auto 6.
Qed.

(** X7: what [sanitizeInput] returns holds none of the five characters it
    escapes, a string that holds none of them is returned as it is, and
    sanitizing twice is sanitizing once. *)
Theorem sanitizeInput_escapes_and_is_idempotent (input : string) :
  (forall c, In c escaped_characters ->
     contains c (sanitizeInput input) = false)
  /\ ((forall c, In c escaped_characters -> contains c input = false) ->
      sanitizeInput input = input)
  /\ sanitizeInput (sanitizeInput input) = sanitizeInput input.
Proof.
  split; [intros c; apply sanitizeInput_contains|].
  split; [apply sanitizeInput_clean|].
  apply sanitizeInput_clean. intros c. apply sanitizeInput_contains.
Qed.

Lemma sanitizeInput_escapes_and_is_idempotent_witness :
  sanitizeInput "<b>Tom's</b>" = "&lt;b&gt;Tom&#x27;s&lt;&#x2F;b&gt;"
  /\ contains "<" (sanitizeInput "<b>Tom's</b>") = false
  /\ sanitizeInput "Shop 24-7" = "Shop 24-7".
Proof.
  split; [reflexivity|]. split.
  - apply (proj1 (sanitizeInput_escapes_and_is_idempotent "<b>Tom's</b>")).
    left. reflexivity.
  - apply (proj1 (proj2 (sanitizeInput_escapes_and_is_idempotent "Shop 24-7"))).
    intros c Hc. cbn [escaped_characters In] in Hc.
    destruct Hc as [<-|[<-|[<-|[<-|[<-|[]]]]]]; reflexivity.
Defined.

(** ** Registering and logging in *)

Lemma account_same_store w w' e :
  localStorage w' = localStorage w -> account w' e = account w e.
Proof. intros H. unfold account. rewrite H. reflexivity. Qed.

(** The attempt passes the rate limit and is verified against the same
    store. *)
Lemma check_rate_limit_passes now e w :
  rate_limited now e w = false ->
  exists w1,
    check_rate_limit now e w = (Return tt, w1)
    /\ localStorage w1 = localStorage w
    /\ (forall e', loginAttempts w1 !! e' = None
                   \/ loginAttempts w1 !! e' = loginAttempts w !! e').
Proof.
  unfold rate_limited. rewrite check_rate_limit_eq.
  destruct (loginAttempts w !! e) as [a|];
    [|intros _; exists w; auto].
  destruct (MAX_LOGIN_ATTEMPTS <=? count a)%nat; cbn [andb];
    [|intros _; exists w; auto].
  intros ->. exists (forget e w). split; [reflexivity|].
  split; [reflexivity|]. intros e'. unfold forget. cbn [loginAttempts].
  destruct (decide (e = e')) as [->|Hne].
  - left. apply lookup_delete_eq.
  - right. apply lookup_delete_ne. exact Hne.
Qed.

(** X8: registration and login round-trip, and emails are matched by
    their lower-case form: after [createUser], which returns and stores a
    user with the lower-cased email, the hash of the password and the
    sanitized name, a [loginUser] that the rate limit lets pass, with the
    same password and an email with the same lower-case form, returns
    that user with [lastLoginAt] set to the time of the login and every
    other field kept, stores it, and leaves no attempt entry for the
    email. *)
Theorem register_then_login
    (toLowerCase hashPassword : string -> string) now random created lastLogin
    address password name w now' iso address' :
  toLowerCase address' = toLowerCase address ->
  rate_limited now' (toLowerCase address) w = false ->
  exists user w1 w2,
    createUser toLowerCase hashPassword now random created lastLogin address
      password name w
    = (Return user, w1)
    /\ email user = toLowerCase address
    /\ user = {| userId := "user_" +:+ pretty now +:+ "_" +:+ random;
                 email := toLowerCase address;
                 passwordHash := hashPassword password;
                 displayName := sanitizeInput name;
                 createdAt := created;
                 lastLoginAt := lastLogin |}
    /\ localStorage w1 !! user_key (userId user) = Some (VUser user)
    /\ loginUser toLowerCase hashPassword now' iso address' password w1
       = (Return (set_lastLoginAt user iso), w2)
    /\ set_lastLoginAt user iso
       = {| userId := "user_" +:+ pretty now +:+ "_" +:+ random;
            email := toLowerCase address;
            passwordHash := hashPassword password;
            displayName := sanitizeInput name;
            createdAt := created;
            lastLoginAt := iso |}
    /\ localStorage w2 !! user_key (userId user)
       = Some (VUser (set_lastLoginAt user iso))
    /\ loginAttempts w2 !! toLowerCase address = None.
Proof.
  intros Hcase Hrl.
  pose proof (createUser_eq toLowerCase hashPassword now random created
                lastLogin address password name w) as Hc.
  cbv zeta in Hc.
  set (uid := "user_" +:+ pretty now +:+ "_" +:+ random) in *.
  set (user := {| userId := uid; email := toLowerCase address |}) in *.
  set (w1 := write (user_email_key (toLowerCase address)) _ _) in Hc.
  assert (Hacc : account w1 (toLowerCase address) = Some (uid, user)).
  { unfold account, w1, write. cbn [localStorage].
    rewrite lookup_insert_eq.
    rewrite lookup_insert_ne by (apply not_eq_sym; auto with keys).
    rewrite lookup_insert_eq. reflexivity. }
  destruct (check_rate_limit_passes now' (toLowerCase address) w1 Hrl)
    as (w1' & Hcheck & Hstore & _).
  exists user, w1. eexists.
  split; [exact Hc|]. split; [reflexivity|]. split; [reflexivity|].
  split.
  { unfold w1, write. cbn [localStorage].
    rewrite lookup_insert_ne by (apply not_eq_sym; auto with keys).
    apply lookup_insert_eq. }
  rewrite loginUser_eq, Hcase, Hcheck. unfold verify.
  rewrite (account_same_store _ _ _ Hstore), Hacc.
  change (passwordHash user) with (hashPassword password).
  rewrite String.eqb_refl.
  split; [reflexivity|]. split; [reflexivity|]. split.
  - unfold write. cbn [localStorage]. apply lookup_insert_eq.
  - unfold write, forget. cbn [loginAttempts]. apply lookup_delete_eq.
Qed.

Lemma register_then_login_witness :
  exists user w1 w2,
    createUser ascii_toLowerCase sample_hash 1 "alice" "2024-01-01T00:00:00.000Z"
      "2024-01-01T00:00:00.000Z" "Alice@Example.com" "correct horse"
      "Alice" empty_world
    = (Return user, w1)
    /\ email user = "alice@example.com"
    /\ loginUser ascii_toLowerCase sample_hash 5000 "2024-01-02T08:00:00.000Z"
         "ALICE@example.COM" "correct horse" w1
       = (Return (set_lastLoginAt user "2024-01-02T08:00:00.000Z"), w2).
Proof.
  destruct (register_then_login ascii_toLowerCase sample_hash 1 "alice"
              "2024-01-01T00:00:00.000Z" "2024-01-01T00:00:00.000Z"
              "Alice@Example.com" "correct horse" "Alice" empty_world
              5000 "2024-01-02T08:00:00.000Z" "ALICE@example.COM"
              eq_refl eq_refl)
    as (user & w1 & w2 & Hc & He & _ & _ & Hl & _).
  exists user, w1, w2. split; [exact Hc|]. split; [exact He|exact Hl].
Defined.

(** ** The table of login attempts *)

Lemma leaves_ret {A : Type} (a : A) : leaves_attempts (ret a).
Proof. intros w. reflexivity. Qed.

Lemma leaves_throw {A : Type} (e : Error) : leaves_attempts (@throw A e).
Proof. intros w. reflexivity. Qed.

Lemma leaves_bind {A B : Type} (m : M A) (k : A -> M B) :
  leaves_attempts m -> (forall a, leaves_attempts (k a)) ->
  leaves_attempts (bind m k).
Proof.
  intros Hm Hk w. specialize (Hm w). unfold bind.
  destruct (m w) as [[a|e] w1]; cbn [snd] in *; [rewrite Hk|]; exact Hm.
Qed.

Lemma leaves_try_catch {A : Type} (m : M A) (h : Error -> M A) :
  leaves_attempts m -> (forall e, leaves_attempts (h e)) ->
  leaves_attempts (try_catch m h).
Proof.
  intros Hm Hh w. specialize (Hm w). unfold try_catch.
  destruct (m w) as [[a|e] w1]; cbn [snd] in *; [|rewrite Hh]; exact Hm.
Qed.

Lemma leaves_get key : leaves_attempts (storageAPI.get key).
Proof.
  intros w. unfold storageAPI.get.
  destruct (localStorage w !! key); reflexivity.
Qed.

Lemma leaves_set key val : leaves_attempts (storageAPI.set key val).
Proof. intros w. reflexivity. Qed.

Lemma leaves_delete key : leaves_attempts (storageAPI.delete key).
Proof. intros w. reflexivity. Qed.

Lemma leaves_for_of {A : Type} (l : list A) (body : A -> M unit) :
  (forall a, leaves_attempts (body a)) -> leaves_attempts (for_of l body).
Proof.
  intros Hb. induction l as [|a l IH]; cbn [for_of].
  - apply leaves_ret.
  - apply leaves_bind; [apply Hb|intros _; exact IH].
Qed.

Ltac leaves_step :=
  match goal with
  | |- leaves_attempts (bind _ _) => apply leaves_bind; [|intros ?]
  | |- leaves_attempts (try_catch _ _) => apply leaves_try_catch; [|intros ?]
  | |- leaves_attempts (ret _) => apply leaves_ret
  | |- leaves_attempts (throw _) => apply leaves_throw
  | |- leaves_attempts (storageAPI.get _) => apply leaves_get
  | |- leaves_attempts (storageAPI.delete _) => apply leaves_delete
  | |- leaves_attempts (storageAPI.set _ _) => apply leaves_set
  | |- leaves_attempts (for_of _ _) => apply leaves_for_of; intros ?
  | |- leaves_attempts (match ?x with _ => _ end) => destruct x
  end.

Ltac leaves := cbv zeta; unfold store_session; cbv zeta; repeat leaves_step.

Lemma leaves_getProjectAudits projectId :
  leaves_attempts (getProjectAudits projectId).
Proof.
  intros w. rewrite getProjectAudits_eq. reflexivity.
Qed.

Lemma leaves_getProject projectId : leaves_attempts (getProject projectId).
Proof. intros w. rewrite getProject_eq. reflexivity. Qed.

Lemma leaves_updateProject iso projectId updates :
  leaves_attempts (updateProject iso projectId updates).
Proof.
  intros w. rewrite updateProject_eq.
  destruct (stored_project w projectId); reflexivity.
Qed.

Lemma leaves_deleteProject projectId userId :
  leaves_attempts (deleteProject projectId userId).
Proof.
  unfold deleteProject, JSON.parse_ids.
  apply leaves_bind; [apply leaves_getProjectAudits|]. intros audits. leaves.
Qed.

Lemma leaves_getCurrentUser parse now refreshedAt token :
  leaves_attempts (getCurrentUser parse now refreshedAt token).
Proof.
  unfold getCurrentUser, logout, raw_value, JSON.parse_User. leaves.
Qed.

Lemma leaves_updateAuditNotes auditId text :
  leaves_attempts (updateAuditNotes auditId text).
Proof. unfold updateAuditNotes, JSON.parse_AuditRecord. leaves. Qed.

Lemma leaves_deleteAudit auditId projectId :
  leaves_attempts (deleteAudit auditId projectId).
Proof. unfold deleteAudit, JSON.parse_ids. leaves. Qed.

(** Only [loginUser] writes the table of login attempts. *)
Lemma step_leaves_attempts lower parse h w w' :
  step lower parse h w w' ->
  (exists now iso email password,
     w' = snd (loginUser lower h now iso email password w))
  \/ loginAttempts w' = loginAttempts w.
Proof.
  intros Hstep. destruct Hstep.
  - right. rewrite createUser_eq. reflexivity.
  - left. eauto.
  - right. apply leaves_getCurrentUser.
  - right. reflexivity.
  - right. reflexivity.
  - right. rewrite createProject_eq. reflexivity.
  - right. apply leaves_updateProject.
  - right. apply leaves_deleteProject.
  - right. rewrite saveAudit_eq.
    destruct (stored_project w _) as [p|]; [|reflexivity].
    destruct (negb _); reflexivity.
  - right. apply leaves_updateAuditNotes.
  - right. apply leaves_deleteAudit.
Qed.

Lemma bounded_same_attempts w w' :
  loginAttempts w' = loginAttempts w ->
  attempts_bounded w -> attempts_bounded w'.
Proof. intros Heq Hw e a. rewrite Heq. apply Hw. Qed.

Lemma bounded_forget e w :
  attempts_bounded w -> attempts_bounded (forget e w).
Proof.
  intros Hw e' a. unfold forget. cbn [loginAttempts].
  intros Ha. apply lookup_delete_Some in Ha as [_ Ha]. exact (Hw e' a Ha).
Qed.

Lemma bounded_record_failure now e w :
  attempts_bounded w ->
  (forall a, loginAttempts w !! e = Some a ->
             (count a < MAX_LOGIN_ATTEMPTS)%nat) ->
  attempts_bounded (record_failure now e w).
Proof.
  intros Hw Hlt e' a. unfold record_failure. cbn [loginAttempts].
  destruct (decide (e = e')) as [<-|Hne].
  - rewrite lookup_insert_eq. intros [= <-]. cbn [count].
    destruct (loginAttempts w !! e) as [a0|].
    + specialize (Hlt a0 eq_refl). cbn [default]. unfold id.
      unfold MAX_LOGIN_ATTEMPTS in *. lia.
    + cbn. unfold MAX_LOGIN_ATTEMPTS. lia.
  - rewrite lookup_insert_ne by exact Hne. apply Hw.
Qed.

Lemma bounded_verify h now iso e password w :
  attempts_bounded w ->
  (forall a, loginAttempts w !! e = Some a ->
             (count a < MAX_LOGIN_ATTEMPTS)%nat) ->
  attempts_bounded (snd (verify h now iso e password w)).
Proof.
  intros Hw Hlt. unfold verify.
  destruct (account w e) as [[uid u]|];
    [destruct (String.eqb _ _)|]; cbn [snd];
    try (apply bounded_record_failure; assumption).
  apply (bounded_same_attempts (forget e w)); [reflexivity|].
  apply bounded_forget, Hw.
Qed.

Lemma bounded_loginUser lower h now iso email password w :
  attempts_bounded w ->
  attempts_bounded (snd (loginUser lower h now iso email password w)).
Proof.
  intros Hw. rewrite loginUser_eq, check_rate_limit_eq.
  set (e := lower email).
  destruct (loginAttempts w !! e) as [a|] eqn:Ha.
  - destruct (MAX_LOGIN_ATTEMPTS <=? count a)%nat eqn:Hmax.
    + destruct (now - lastAttempt a <? LOCKOUT_DURATION); [exact Hw|].
      apply bounded_verify; [apply bounded_forget, Hw|].
      intros a'. unfold forget. cbn [loginAttempts].
      rewrite lookup_delete_eq. discriminate.
    + apply bounded_verify; [exact Hw|].
      intros a'. rewrite Ha. intros [= <-].
      apply Nat.leb_gt in Hmax. exact Hmax.
  - apply bounded_verify; [exact Hw|].
    intros a'. rewrite Ha. discriminate.
Qed.

Lemma reachable_bounded lower parse h w :
  reachable lower parse h w -> attempts_bounded w.
Proof.
  induction 1 as [|w w' _ IH Hstep].
  - intros e a. cbn [empty_world loginAttempts]. rewrite lookup_empty.
    discriminate.
  - destruct (step_leaves_attempts _ _ _ _ _ Hstep)
      as [(now & iso & email & password & ->)|Heq].
    + apply bounded_loginUser, IH.
    + exact (bounded_same_attempts w w' Heq IH).
Qed.

(** X9: in every world the service gets to, each tracked email has at
    least one and at most five counted failures: the counter never runs
    past the threshold; and only [loginUser] writes the table of login
    attempts: a call of any function of the service either is a call of
    [loginUser] or leaves the table as it is. *)
Theorem attempts_stay_bounded
    (toLowerCase : string -> string) (JSON_parse_text : string -> ParsedText)
    (hashPassword : string -> string) w :
  reachable toLowerCase JSON_parse_text hashPassword w ->
  attempts_bounded w
  /\ (forall w',
        step toLowerCase JSON_parse_text hashPassword w w' ->
        (exists now iso email password,
           w' = snd (loginUser toLowerCase hashPassword now iso email
                       password w))
        \/ loginAttempts w' = loginAttempts w).
Proof.
  intros Hreach. split.
  - exact (reachable_bounded _ _ _ _ Hreach).
  - intros w'. apply step_leaves_attempts.
Qed.

Lemma attempts_stay_bounded_witness :
  let guess t w :=
    snd (loginUser ascii_toLowerCase sample_hash t "2024-01-03T09:00:00.000Z"
           "alice@example.com" "guess" w) in
  let w7 :=
    guess 6 (guess 5 (guess 4 (guess 3 (guess 2 (guess 1
      (guess 0 world_with_account)))))) in
  loginAttempts w7 !! "alice@example.com"
  = Some {| count := 5; lastAttempt := 4 |}
  /\ attempts_bounded w7.
Proof.
  cbv zeta. split; [vm_compute; reflexivity|].
  refine (proj1 (attempts_stay_bounded ascii_toLowerCase sample_parse_text
                   sample_hash _ _)).
  do 7 (eapply reachable_step; [|apply step_loginUser]).
  unfold world_with_account.
  change (reachable ascii_toLowerCase sample_parse_text sample_hash
            (write (user_key "user_1_alice") (VUser alice)
               (write (user_email_key "alice@example.com")
                  (VString "user_1_alice") empty_world))).
  assert (Hc := createUser_eq ascii_toLowerCase sample_hash 1 "alice"
                  "2024-01-01T00:00:00.000Z" "2024-01-01T00:00:00.000Z"
                  "alice@example.com" "correct horse" "Alice" empty_world).
  cbv zeta in Hc.
  assert (Hw : write (user_key "user_1_alice") (VUser alice)
                 (write (user_email_key "alice@example.com")
                    (VString "user_1_alice") empty_world)
               = snd (createUser ascii_toLowerCase sample_hash 1 "alice"
                        "2024-01-01T00:00:00.000Z" "2024-01-01T00:00:00.000Z"
                        "alice@example.com" "correct horse" "Alice"
                        empty_world))
    by (vm_compute; reflexivity).
  rewrite Hw. eapply reachable_step; [apply reachable_empty|].
  apply step_createUser.
Defined.


(** ** Sessions *)

Lemma session_key_not_user uid : "current_session" <> user_key uid.
Proof. key_discriminate. Qed.

(** The read of the user that ends [getCurrentUser]. *)
Lemma read_user_eq uid w :
  try_catch
    (userResult <- storageAPI.get (user_key uid) ;;
     user <- JSON.parse_User userResult ;;
     ret (Some user))
    (fun _ => ret None) w
  = (Return (stored_user w uid), w).
Proof.
  unfold try_catch, bind, storageAPI.get, stored_user.
  destruct (localStorage w !! user_key uid) as [[]|]; reflexivity.
Qed.

Lemma getCurrentUser_eq parse now refreshedAt token w :
  getCurrentUser parse now refreshedAt token w =
  match localStorage w !! "current_session" with
  | Some sessionResult =>
      match session_data parse sessionResult with
      | ParsedString legacy => (Return (stored_user w legacy), w)
      | ParsedOther userId lastActivity =>
          if SESSION_TIMEOUT <? now - lastActivity then
            (Return None, erase "current_session" w)
          else
            let w' :=
              write "current_session"
                (VSession {| session_userId := userId;
                             lastActivity := refreshedAt;
                             csrfToken := token |}) w in
            (Return (stored_user w' (template_userId userId)), w')
      | Unparsable | ParsedNull =>
          match sessionResult with
          | VString text => (Return (stored_user w text), w)
          | _ => (Return None, w)
          end
      end
  | None => (Return None, w)
  end.
Proof.
  unfold getCurrentUser, try_catch at 1, bind at 1, storageAPI.get.
  destruct (localStorage w !! "current_session") as [v|]; [|reflexivity].
  assert (Hread : forall uid w0,
            match
              (userResult <- storageAPI.get (user_key uid) ;;
               user <- JSON.parse_User userResult ;;
               ret (Some user)) w0
            with
            | (Return a, w') => (Return a, w')
            | (Throw _, w') => ret None w'
            end = (Return (stored_user w0 uid), w0)).
  { intros uid w0. exact (read_user_eq uid w0). }
  destruct (session_data parse v) as [|legacy| |uid la].
  - destruct v; try reflexivity. cbn [raw_value]. unfold bind at 1 2.
    cbn [ret]. apply Hread.
  - unfold bind at 1. cbn [ret]. apply Hread.
  - destruct v; try reflexivity. cbn [raw_value]. unfold bind at 1 2.
    cbn [ret]. apply Hread.
  - cbv zeta.
    destruct (SESSION_TIMEOUT <? now - la); [reflexivity|].
    unfold store_session. cbv zeta. unfold bind at 1 2.
    cbn [storageAPI.set ret JSON.stringify_Session].
    match goal with
    | |- context [ {| localStorage := <[?k := ?x]> _; loginAttempts := _ |} ] =>
        fold (write k x w)
    end.
    apply Hread.
Qed.

(** X10: a session set by [setCurrentUser] is found by [getCurrentUser]
    as long as no more than 24 hours have passed since it was set (24
    hours exactly still counts): the stored user is returned and the
    session is rewritten with the time of the read. *)
Theorem session_found_within_timeout
    (JSON_parse_text : string -> ParsedText)
    t0 token userId user w now refreshedAt token' :
  stored_user w userId = Some user ->
  now - t0 <= SESSION_TIMEOUT ->
  let w1 := snd (setCurrentUser t0 token userId w) in
  exists w2,
    getCurrentUser JSON_parse_text now refreshedAt token' w1
    = (Return (Some user), w2)
    /\ localStorage w2 !! "current_session"
       = Some (VSession {| session_userId := Some userId;
                           lastActivity := refreshedAt;
                           csrfToken := token' |}).
Proof.
  intros Hu Hfresh. cbv zeta. rewrite getCurrentUser_eq.
  unfold setCurrentUser, store_session, JSON.stringify_Session.
  cbn [storageAPI.set snd localStorage].
  rewrite lookup_insert_eq. cbn [session_data lastActivity session_userId].
  apply Z.ltb_ge in Hfresh. rewrite Hfresh. cbv zeta.
  eexists. split.
  - f_equal. f_equal. unfold stored_user, write. cbn [localStorage].
    cbn [template_userId].
    rewrite !lookup_insert_ne by apply session_key_not_user.
    exact Hu.
  - unfold write. cbn [localStorage]. apply lookup_insert_eq.
Qed.

(** X11: once more than 24 hours have passed since the session was set,
    [getCurrentUser] returns no user and removes the session, so that a
    later read finds none either, whatever its clock says. *)
Theorem session_expires
    (JSON_parse_text : string -> ParsedText)
    t0 token userId w now refreshedAt token' :
  SESSION_TIMEOUT < now - t0 ->
  let w1 := snd (setCurrentUser t0 token userId w) in
  exists w2,
    getCurrentUser JSON_parse_text now refreshedAt token' w1
    = (Return None, w2)
    /\ localStorage w2 !! "current_session" = None
    /\ (forall later refreshedAt' token'',
          getCurrentUser JSON_parse_text later refreshedAt' token'' w2
          = (Return None, w2)).
Proof.
  intros Hold. cbv zeta. rewrite getCurrentUser_eq.
  unfold setCurrentUser, store_session, JSON.stringify_Session.
  cbn [storageAPI.set snd localStorage].
  rewrite lookup_insert_eq. cbn [session_data lastActivity].
  apply Z.ltb_lt in Hold. rewrite Hold.
  eexists. split; [reflexivity|].
  assert (Hgone : forall m : gmap string value,
             delete "current_session" m !! "current_session" = None)
    by (intros m; apply lookup_delete_eq).
  split.
  - unfold erase. cbn [localStorage]. apply Hgone.
  - intros later refreshedAt' token''. rewrite getCurrentUser_eq.
    unfold erase at 1. cbn [localStorage]. rewrite Hgone. reflexivity.
Qed.

(** X12: [getCurrentUser] never throws, and after [logout] it returns no
    user and changes nothing. *)
Theorem getCurrentUser_total_and_null_after_logout
    (JSON_parse_text : string -> ParsedText) now refreshedAt token w :
  (exists result,
     fst (getCurrentUser JSON_parse_text now refreshedAt token w)
     = Return result)
  /\ getCurrentUser JSON_parse_text now refreshedAt token (snd (logout w))
     = (Return None, snd (logout w)).
Proof.
  split.
  - rewrite getCurrentUser_eq.
    destruct (localStorage w !! "current_session") as [v|];
      [|eexists; reflexivity].
    destruct (session_data JSON_parse_text v) as [|legacy| |uid la].
    + destruct v; eexists; reflexivity.
    + eexists; reflexivity.
    + destruct v; eexists; reflexivity.
    + destruct (SESSION_TIMEOUT <? now - la); eexists; reflexivity.
  - rewrite getCurrentUser_eq. unfold logout.
    cbn [storageAPI.delete snd localStorage].
    rewrite lookup_delete_eq. reflexivity.
Qed.

(** X13: a legacy session is a text stored as it is under the session
    key.  When the text is not JSON (a bare user id such as
    user_1700000000000_k3x9q2m1z) or is the JSON [null], the text itself
    is the user id; when it is a JSON string, that string is.  Such a
    session is honoured at any time: it is neither checked against the
    timeout nor refreshed, and the read leaves the world as it is.  A
    text that is any other JSON value (a number, a boolean, an object) is
    taken for a session object instead, and once its [lastActivity] (0
    when it has none) is more than 24 hours old the read removes it and
    returns no user. *)
Theorem legacy_session_never_expires
    (JSON_parse_text : string -> ParsedText)
    text w now refreshedAt token :
  localStorage w !! "current_session" = Some (VString text) ->
  (forall userId user,
     ((JSON_parse_text text = Unparsable \/ JSON_parse_text text = ParsedNull)
      /\ userId = text)
     \/ JSON_parse_text text = ParsedString userId ->
     stored_user w userId = Some user ->
     getCurrentUser JSON_parse_text now refreshedAt token w
     = (Return (Some user), w))
  /\ (forall userId lastActivity,
        JSON_parse_text text = ParsedOther userId lastActivity ->
        SESSION_TIMEOUT < now - lastActivity ->
        getCurrentUser JSON_parse_text now refreshedAt token w
        = (Return None, erase "current_session" w)).
Proof.
  intros Hs. split.
  - intros userId user Hparse Hu.
    rewrite getCurrentUser_eq, Hs. cbn [session_data].
    destruct Hparse as [[[-> | ->] ->] | ->]; rewrite Hu; reflexivity.
  - intros userId la Hparse Hold.
    rewrite getCurrentUser_eq, Hs. cbn [session_data]. rewrite Hparse.
    apply Z.ltb_lt in Hold. rewrite Hold. reflexivity.
Qed.

Lemma session_found_within_timeout_witness :
  exists w2,
    getCurrentUser sample_parse_text (1000 + SESSION_TIMEOUT)
      (1001 + SESSION_TIMEOUT) "t2"
      (snd (setCurrentUser 1000 "t1" "user_1_alice" world_with_account))
    = (Return (Some alice), w2).
Proof.
  assert (Hu : stored_user world_with_account "user_1_alice" = Some alice)
    by (vm_compute; reflexivity).
  assert (Ht : 1000 + SESSION_TIMEOUT - 1000 <= SESSION_TIMEOUT)
    by (vm_compute; discriminate).
  destruct (session_found_within_timeout sample_parse_text 1000 "t1"
              "user_1_alice" alice
              world_with_account (1000 + SESSION_TIMEOUT)
              (1001 + SESSION_TIMEOUT) "t2" Hu Ht) as (w2 & Hget & _).
  exists w2. exact Hget.
Defined.

Lemma session_expires_witness :
  exists w2,
    getCurrentUser sample_parse_text (1001 + SESSION_TIMEOUT)
      (1001 + SESSION_TIMEOUT) "t2"
      (snd (setCurrentUser 1000 "t1" "user_1_alice" world_with_account))
    = (Return None, w2)
    /\ localStorage w2 !! "current_session" = None.
Proof.
  assert (Ht : SESSION_TIMEOUT < 1001 + SESSION_TIMEOUT - 1000)
    by (vm_compute; reflexivity).
  destruct (session_expires sample_parse_text 1000 "t1" "user_1_alice"
              world_with_account
              (1001 + SESSION_TIMEOUT) (1001 + SESSION_TIMEOUT) "t2" Ht)
    as (w2 & Hget & Hgone & _).
  exists w2. split; [exact Hget|exact Hgone].
Defined.

Lemma legacy_session_never_expires_witness :
  let w := write "current_session" (VString "user_1_alice")
             world_with_account in
  localStorage w !! "current_session" = Some (VString "user_1_alice")
  /\ sample_parse_text "user_1_alice" = Unparsable
  /\ getCurrentUser sample_parse_text (1000 * SESSION_TIMEOUT) 0 "t" w
     = (Return (Some alice), w).
Proof.
  cbv zeta.
  assert (Hs : localStorage
                 (write "current_session" (VString "user_1_alice")
                    world_with_account)
               !! "current_session" = Some (VString "user_1_alice"))
    by (vm_compute; reflexivity).
  split; [exact Hs|]. split; [reflexivity|].
  apply (proj1 (legacy_session_never_expires sample_parse_text "user_1_alice"
                  _ (1000 * SESSION_TIMEOUT) 0 "t" Hs) "user_1_alice" alice).
  - left. split; [left; reflexivity|reflexivity].
  - vm_compute. reflexivity.
Defined.


(** ** Saving and reading audits *)

(** X14: [saveAudit] refuses a project that is not stored with "Project
    not found" and a user who is not its owner with "Unauthorized", and
    in both cases writes nothing. *)
Theorem saveAudit_refusals_write_nothing
    now random analyzed ts updated pid uid (report : AuditReport) w :
  (stored_project w pid = None ->
   saveAudit now random analyzed ts updated pid uid report w
   = (Throw ProjectNotFound, w))
  /\ (forall project,
        stored_project w pid = Some project ->
        project_userId project <> uid ->
        saveAudit now random analyzed ts updated pid uid report w
        = (Throw Unauthorized, w)).
Proof.
  split.
  - intros Hp. rewrite saveAudit_eq, Hp. reflexivity.
  - intros p Hp Hne. rewrite saveAudit_eq, Hp.
    apply String.eqb_neq in Hne. rewrite Hne. reflexivity.
Qed.

Lemma saveAudit_refusals_write_nothing_witness :
  saveAudit 2 "k3x9q2m1z" "2024-01-02T10:00:00.000Z"
    "2024-01-02T10:00:00.001Z" "2024-01-02T10:00:00.002Z"
    "proj_1_shop" "user_9_mallory" forged_report world_with_project
  = (Throw Unauthorized, world_with_project)
  /\ saveAudit 2 "k3x9q2m1z" "2024-01-02T10:00:00.000Z"
       "2024-01-02T10:00:00.001Z" "2024-01-02T10:00:00.002Z"
       "proj_7_gone" "user_1_alice" forged_report world_with_project
     = (Throw ProjectNotFound, world_with_project).
Proof.
  split.
  - apply (proj2 (saveAudit_refusals_write_nothing 2 "k3x9q2m1z"
                    "2024-01-02T10:00:00.000Z" "2024-01-02T10:00:00.001Z"
                    "2024-01-02T10:00:00.002Z" "proj_1_shop" "user_9_mallory"
                    forged_report world_with_project) alice_project).
    + vm_compute. reflexivity.
    + vm_compute. discriminate.
  - apply (proj1 (saveAudit_refusals_write_nothing 2 "k3x9q2m1z"
                    "2024-01-02T10:00:00.000Z" "2024-01-02T10:00:00.001Z"
                    "2024-01-02T10:00:00.002Z" "proj_7_gone" "user_1_alice"
                    forged_report world_with_project)).
    vm_compute. reflexivity.
Defined.




Lemma getAudit_eq auditId w :
  getAudit auditId w = (Return (stored_audit w auditId), w).
Proof.
  unfold getAudit, stored_audit, try_catch, bind, storageAPI.get.
  destruct (localStorage w !! audit_key auditId) as [[]|]; reflexivity.
Qed.

Lemma stored_audit_write_ne key val w id :
  key <> audit_key id -> stored_audit (write key val w) id = stored_audit w id.
Proof.
  intros Hne. unfold stored_audit, write. cbn [localStorage].
  rewrite lookup_insert_ne by exact Hne. reflexivity.
Qed.

Lemma stored_audit_write_eq id a w :
  stored_audit (write (audit_key id) (VAudit a) w) id = Some (json_audit a).
Proof.
  unfold stored_audit, write. cbn [localStorage].
  rewrite lookup_insert_eq. reflexivity.
Qed.

Lemma stored_ids_write_eq key ids w :
  stored_ids (write key (VIds ids) w) key = ids.
Proof.
  unfold stored_ids, write. cbn [localStorage].
  rewrite lookup_insert_eq. reflexivity.
Qed.

(** X16: an audit that [saveAudit] has returned can be read back:
    [getAudit] with its id returns the record that the stored JSON text
    holds, which is the returned record itself whenever the score is a
    number, and the returned record with [null] for [accessibilityScore]
    and [fullReport.overall_score] when the score is [NaN]; its id is the
    last of the project's index, and [getProjectAudits] lists the record
    read back. *)
Theorem saved_audit_is_read_back
    now random analyzed ts updated pid uid (report : AuditReport) w audit w' :
  saveAudit now random analyzed ts updated pid uid report w
  = (Return audit, w') ->
  exists readBack,
    getAudit (auditId audit) w' = (Return (Some readBack), w')
    /\ (calculateAccessibilityScore (violations report) <> NaN ->
        readBack = audit)
    /\ (calculateAccessibilityScore (violations report) = NaN ->
        accessibilityScore audit = NaN
        /\ overall_score (fullReport audit) = NaN
        /\ accessibilityScore readBack = Null
        /\ overall_score (fullReport readBack) = Null)
    /\ auditId readBack = auditId audit
    /\ auditVersion readBack = auditVersion audit
    /\ wcagCompliance readBack = wcagCompliance audit
    /\ totalViolations readBack = totalViolations audit
    /\ violationsBySeverity readBack = violationsBySeverity audit
    /\ violations (fullReport readBack) = violations (fullReport audit)
    /\ notes readBack = notes audit
    /\ stored_ids w' (project_audits_key pid)
       = (stored_ids w (project_audits_key pid) ++ [auditId audit])%list
    /\ exists audits,
         getProjectAudits pid w' = (Return audits, w') /\ In readBack audits.
Proof.
  rewrite saveAudit_eq.
  destruct (stored_project w pid) as [p|]; [|discriminate].
  destruct (negb _); [discriminate|]. cbv zeta.
  set (saved_audit :=
         saved now random analyzed ts pid uid p (violations report)).
  set (w1 := write (audit_key (auditId saved_audit))
               (VAudit (json_audit saved_audit)) w).
  set (w2 := write (project_audits_key pid) _ w1).
  set (w3 := write (project_key pid) _ w2).
  intros H. assert (Haudit : saved_audit = audit) by congruence.
  assert (Hw' : w3 = w') by congruence. clear H. subst audit w'.
  rename saved_audit into audit.
  assert (Ha : stored_audit w3 (auditId audit) = Some (json_audit audit)).
  { unfold w3, w2. rewrite !stored_audit_write_ne
      by (apply not_eq_sym; auto with keys).
    unfold w1. rewrite stored_audit_write_eq, json_audit_idem. reflexivity. }
  assert (Hids : stored_ids w3 (project_audits_key pid)
                 = (stored_ids w (project_audits_key pid)
                      ++ [auditId audit])%list).
  { unfold w3. rewrite stored_ids_write_ne by auto with keys.
    unfold w2. apply stored_ids_write_eq. }
  exists (json_audit audit).
  split; [rewrite getAudit_eq, Ha; reflexivity|].
  split; [intros Hnum; apply json_audit_id; exact Hnum|].
  split.
  { intros HNaN.
    change (calculateAccessibilityScore (violations report) = NaN
            /\ calculateAccessibilityScore (violations report) = NaN
            /\ JSON_number (calculateAccessibilityScore (violations report))
               = Null
            /\ JSON_number (calculateAccessibilityScore (violations report))
               = Null).
    rewrite HNaN. repeat split; reflexivity. }
  do 7 (split; [reflexivity|]).
  split; [exact Hids|].
  eexists. split; [apply getProjectAudits_eq|].
  apply sort_by_version_desc_In.
  apply (found_audits_In w3 (auditId audit)); [|exact Ha].
  rewrite Hids. apply in_or_app. right. left. reflexivity.
Qed.

Lemma saved_audit_is_read_back_witness :
  exists audit w',
    saveAudit 2 "k3x9q2m1z" "2024-01-02T10:00:00.000Z"
      "2024-01-02T10:00:00.001Z" "2024-01-02T10:00:00.002Z"
      "proj_1_shop" "user_1_alice" forged_report world_with_project
    = (Return audit, w')
    /\ getAudit "aud_2_k3x9q2m1z" w' = (Return (Some audit), w').
Proof.
  destruct (saveAudit_returns 2 "k3x9q2m1z" "2024-01-02T10:00:00.000Z"
              "2024-01-02T10:00:00.001Z" "2024-01-02T10:00:00.002Z"
              "proj_1_shop" "user_1_alice" forged_report world_with_project
              alice_project) as (w' & Hs).
  - vm_compute. reflexivity.
  - reflexivity.
  - eexists. exists w'. split; [exact Hs|].
    destruct (saved_audit_is_read_back _ _ _ _ _ _ _ _ _ _ _ Hs)
      as (readBack & Hget & Hsame & _).
    assert (Hnum : calculateAccessibilityScore (violations forged_report)
                   <> NaN) by (vm_compute; discriminate).
    rewrite (Hsame Hnum) in Hget. exact Hget.
Defined.

(** ** Listing audits *)

Lemma insert_by_version_Permutation a l :
  Permutation (insert_by_version a l) (a :: l).
Proof.
  induction l as [|b l IH]; cbn [insert_by_version]; [reflexivity|].
  destruct (auditVersion b - auditVersion a <=? 0); [reflexivity|].
  rewrite IH. apply perm_swap.
Qed.

Lemma sort_by_version_desc_Permutation l :
  Permutation (sort_by_version_desc l) l.
Proof.
  unfold sort_by_version_desc.
  induction l as [|a l IH]; cbn [fold_right]; [reflexivity|].
  rewrite insert_by_version_Permutation, IH. reflexivity.
Qed.

Lemma insert_by_version_sorted a l :
  StronglySorted version_ge l ->
  StronglySorted version_ge (insert_by_version a l).
Proof.
  induction l as [|b l IH]; cbn [insert_by_version]; intros Hs.
  - constructor; constructor.
  - apply StronglySorted_inv in Hs as [Hl Hb].
    destruct (auditVersion b - auditVersion a <=? 0) eqn:Hcmp.
    + apply Z.leb_le in Hcmp. constructor; [constructor; assumption|].
      constructor; [unfold version_ge; lia|].
      rewrite List.Forall_forall in *. intros x Hx.
      specialize (Hb x Hx). unfold version_ge in *. lia.
    + apply Z.leb_gt in Hcmp. constructor; [apply IH, Hl|].
      rewrite List.Forall_forall in *. intros x Hx.
      apply insert_by_version_In in Hx as [->|Hx];
        [unfold version_ge; lia|apply Hb, Hx].
Qed.

Lemma sort_by_version_desc_sorted l :
  StronglySorted version_ge (sort_by_version_desc l).
Proof.
  unfold sort_by_version_desc.
  induction l as [|a l IH]; cbn [fold_right]; [constructor|].
  apply insert_by_version_sorted, IH.
Qed.

Lemma found_audits_length w ids :
  (length (found_audits w ids) <= length ids)%nat.
Proof.
  unfold found_audits.
  induction ids as [|id ids IH]; cbn [omap list_omap length]; [lia|].
  destruct (stored_audit w id); cbn [length]; lia.
Qed.

(** X17: [getProjectAudits] never throws and writes nothing; the list it
    returns holds exactly the records that the ids of the project's index
    lead to (an id without a record is skipped), most recent version
    first; without an index it is empty. *)
Theorem getProjectAudits_lists_found_records_newest_first pid w :
  exists audits,
    getProjectAudits pid w = (Return audits, w)
    /\ StronglySorted version_ge audits
    /\ Permutation audits
         (found_audits w (stored_ids w (project_audits_key pid)))
    /\ (forall a,
          In a audits
          <-> exists id,
                In id (stored_ids w (project_audits_key pid))
                /\ stored_audit w id = Some a)
    /\ (length audits <= length (stored_ids w (project_audits_key pid)))%nat
    /\ (localStorage w !! project_audits_key pid = None -> audits = []).
Proof.
  eexists. split; [apply getProjectAudits_eq|].
  split; [apply sort_by_version_desc_sorted|].
  split; [apply sort_by_version_desc_Permutation|].
  split; [|split].
  - intros a. rewrite sort_by_version_desc_In. unfold found_audits.
    rewrite <- list_elem_of_In, list_elem_of_omap.
    split; intros (id & Hid & Ha); exists id;
      (split; [apply list_elem_of_In; exact Hid|exact Ha]).
  - rewrite (Permutation_length (sort_by_version_desc_Permutation _)).
    apply found_audits_length.
  - intros Hnone. unfold stored_ids. rewrite Hnone. reflexivity.
Qed.

(** ** Deleting one audit *)

Lemma deleteAudit_eq auditId pid w :
  deleteAudit auditId pid w
  = (Return tt,
     let w1 := erase (audit_key auditId) w in
     match localStorage w1 !! project_audits_key pid with
     | Some (VIds ids) =>
         write (project_audits_key pid)
           (VIds (List.filter (fun id => negb (String.eqb id auditId)) ids))
           w1
     | _ => w1
     end).
Proof.
  unfold deleteAudit. unfold bind at 1. cbn [storageAPI.delete]. cbv zeta.
  fold (erase (audit_key auditId) w).
  unfold try_catch, bind, storageAPI.get.
  destruct (localStorage (erase (audit_key auditId) w)
            !! project_audits_key pid) as [[]|]; reflexivity.
Qed.

(** X18: [deleteAudit] never throws; afterwards the audit cannot be read,
    its id is filtered out of the project's index with the other ids in
    their order, every other audit is as before, and no project record
    has changed: the audit count and the latest score of the project stay
    as they were. *)
Theorem deleteAudit_removes_record_and_index_entry auditId pid w :
  let out := deleteAudit auditId pid w in
  fst out = Return tt
  /\ getAudit auditId (snd out) = (Return None, snd out)
  /\ stored_ids (snd out) (project_audits_key pid)
     = List.filter (fun id => negb (String.eqb id auditId))
         (stored_ids w (project_audits_key pid))
  /\ (forall other, other <> auditId ->
        stored_audit (snd out) other = stored_audit w other)
  /\ (forall projectId,
        stored_project (snd out) projectId = stored_project w projectId).
Proof.
  cbv zeta. rewrite deleteAudit_eq. cbn [fst snd]. cbv zeta.
  assert (Hidx : localStorage (erase (audit_key auditId) w)
                 !! project_audits_key pid
                 = localStorage w !! project_audits_key pid).
  { unfold erase. cbn [localStorage]. apply lookup_delete_ne.
    auto with keys. }
  rewrite Hidx. unfold stored_ids at 2.
  split; [reflexivity|].
  destruct (localStorage w !! project_audits_key pid) as [[| | | |ids|]|]
    eqn:Hw;
    (split; [rewrite getAudit_eq; unfold stored_audit, write, erase;
             cbn [localStorage];
             rewrite ?lookup_insert_ne by (apply not_eq_sym; auto with keys);
             rewrite lookup_delete_eq; reflexivity|]);
    (split; [unfold stored_ids, write, erase; cbn [localStorage];
             rewrite ?lookup_insert_eq;
             rewrite ?lookup_delete_ne by auto with keys;
             rewrite ?Hw; reflexivity|]);
    (split; [intros other Hne; unfold stored_audit, write, erase;
             cbn [localStorage];
             rewrite ?lookup_insert_ne by (apply not_eq_sym; auto with keys);
             rewrite lookup_delete_ne
               by (intros Heq; apply audit_key_inj in Heq; congruence);
             reflexivity|]);
    intros projectId; unfold stored_project, write, erase;
      cbn [localStorage];
      rewrite ?lookup_insert_ne by (apply not_eq_sym; auto with keys);
      rewrite lookup_delete_ne by auto with keys; reflexivity.
Qed.

(** ** Notes *)

(** X19: [updateAuditNotes] on an audit that is not stored throws "Not
    found" and writes nothing; on a stored audit it replaces the notes by
    the sanitized text and nothing else: the record read back differs
    from the old one in its notes only, and every other key is as
    before. *)
Theorem updateAuditNotes_changes_notes_only auditId text w :
  (localStorage w !! audit_key auditId = None ->
   updateAuditNotes auditId text w = (Throw NotFound, w))
  /\ (forall audit,
        stored_audit w auditId = Some audit ->
        exists w',
          updateAuditNotes auditId text w = (Return tt, w')
          /\ getAudit auditId w'
             = (Return (Some (set_notes audit (sanitizeInput text))), w')
          /\ notes (set_notes audit (sanitizeInput text))
             = Some (sanitizeInput text)
          /\ set_notes (set_notes audit (sanitizeInput text)) ""
             = set_notes audit ""
          /\ (forall key, key <> audit_key auditId ->
                localStorage w' !! key = localStorage w !! key)).
Proof.
  split.
  - intros Hnone. unfold updateAuditNotes, bind, storageAPI.get.
    rewrite Hnone. reflexivity.
  - intros audit Ha. unfold stored_audit in Ha.
    destruct (localStorage w !! audit_key auditId) as [[| | |a| |]|] eqn:Hw;
      try discriminate.
    injection Ha as <-.
    exists (write (audit_key auditId)
              (VAudit
                 (json_audit (set_notes (json_audit a) (sanitizeInput text))))
              w).
    split.
    { unfold updateAuditNotes, bind, storageAPI.get. rewrite Hw.
      reflexivity. }
    split.
    { rewrite getAudit_eq, stored_audit_write_eq.
      rewrite json_audit_idem, json_audit_set_notes, json_audit_idem.
      reflexivity. }
    split; [reflexivity|]. split; [reflexivity|].
    intros key Hne. unfold write. cbn [localStorage].
    apply lookup_insert_ne, not_eq_sym, Hne.
Qed.

Lemma updateAuditNotes_changes_notes_only_witness :
  exists audit w',
    stored_audit world_with_audit "aud_2_k3x9q2m1z" = Some audit
    /\ updateAuditNotes "aud_2_k3x9q2m1z" "fix <img> alt" world_with_audit
       = (Return tt, w')
    /\ getAudit "aud_2_k3x9q2m1z" w'
       = (Return (Some (set_notes audit "fix &lt;img&gt; alt")), w')
    /\ updateAuditNotes "aud_0_none" "x" world_with_audit
       = (Throw NotFound, world_with_audit).
Proof.
  destruct (stored_audit world_with_audit "aud_2_k3x9q2m1z") as [audit|]
    eqn:Ha; [|vm_compute in Ha; discriminate Ha].
  destruct (proj2 (updateAuditNotes_changes_notes_only "aud_2_k3x9q2m1z"
                     "fix <img> alt" world_with_audit) audit Ha)
    as (w' & Hu & Hg & _).
  exists audit, w'. split; [reflexivity|]. split; [exact Hu|].
  split; [exact Hg|].
  apply (proj1 (updateAuditNotes_changes_notes_only "aud_0_none" "x"
                  world_with_audit)).
  vm_compute. reflexivity.
Defined.

(** ** Projects *)

(** A project read from the store has no [NaN]. *)
Lemma stored_project_json w pid project :
  stored_project w pid = Some project -> json_project project = project.
Proof.
  unfold stored_project.
  destruct (localStorage w !! project_key pid) as [[| |p| | |]|];
    try discriminate.
  intros [= <-]. apply json_project_idem.
Qed.

(** X20: [updateProject] on a project that is not stored throws "Project
    not found" and writes nothing; on a stored project it rewrites the
    record under the same key: [updatedAt] is the update time; the name,
    the address and the description are the given ones, sanitized; the id,
    the owner, the creation time, the audit count and the latest score are
    the given ones (a latest score [NaN] is stored as [null]); every field
    that the updates leave out is kept; and no other key is touched. *)
Theorem updateProject_rewrites_one_record iso pid updates w :
  (stored_project w pid = None ->
   updateProject iso pid updates w = (Throw ProjectNotFound, w))
  /\ (forall project,
        stored_project w pid = Some project ->
        exists w' project',
          updateProject iso pid updates w = (Return tt, w')
          /\ stored_project w' pid = Some project'
          /\ getProject pid w' = (Return (Some project'), w')
          /\ updatedAt project' = iso
          /\ projectName project'
             = match upd_projectName updates with
               | Some name => sanitizeInput name
               | None => projectName project
               end
          /\ auditCount project'
             = default (auditCount project) (upd_auditCount updates)
          /\ latestScore project'
             = match upd_latestScore updates with
               | Some NaN => Null
               | Some score => score
               | None => latestScore project
               end
          /\ project_userId project'
             = default (project_userId project) (upd_userId updates)
          /\ projectId project'
             = default (projectId project) (upd_projectId updates)
          /\ websiteUrl project'
             = match upd_websiteUrl updates with
               | Some url => Some (sanitizeInput url)
               | None => websiteUrl project
               end
          /\ project_description project'
             = match upd_description updates with
               | Some text => Some (sanitizeInput text)
               | None => project_description project
               end
          /\ project_createdAt project'
             = default (project_createdAt project) (upd_createdAt updates)
          /\ (forall key, key <> project_key pid ->
                localStorage w' !! key = localStorage w !! key)).
Proof.
  split.
  - intros Hnone. rewrite updateProject_eq, Hnone. reflexivity.
  - intros project Hp. rewrite updateProject_eq, Hp.
    pose proof (stored_project_json w pid project Hp) as Hjson.
    eexists _, _. split; [reflexivity|].
    split; [apply stored_project_write_eq|].
    split; [rewrite getProject_eq, stored_project_write_eq; reflexivity|].
    split; [reflexivity|].
    split; [destruct updates as [? ? [name|] ? ? ? ? ?]; reflexivity|].
    split; [reflexivity|].
    split.
    { destruct updates as [? ? ? ? ? ? ? [[z| |]|]]; try reflexivity.
      cbn. rewrite JSON_number_idem. rewrite <- Hjson. cbn.
      apply JSON_number_idem. }
    split; [reflexivity|]. split; [reflexivity|].
    split; [destruct updates as [? ? ? [url|] ? ? ? ?]; reflexivity|].
    split; [destruct updates as [? ? ? ? [text|] ? ? ?]; reflexivity|].
    split; [reflexivity|].
    intros key Hne. unfold write. cbn [localStorage].
    apply lookup_insert_ne, not_eq_sym, Hne.
Qed.

Lemma updateProject_rewrites_one_record_witness :
  exists w' project',
    updateProject "2024-02-01T00:00:00.000Z" "proj_1_shop"
      {| upd_projectId := None; upd_userId := None;
         upd_projectName := Some "Shop <beta>"; upd_websiteUrl := None;
         upd_description := None; upd_createdAt := None;
         upd_auditCount := None; upd_latestScore := None |}
      world_with_project
    = (Return tt, w')
    /\ stored_project w' "proj_1_shop" = Some project'
    /\ projectName project' = "Shop &lt;beta&gt;"
    /\ auditCount project' = 0.
Proof.
  destruct (proj2 (updateProject_rewrites_one_record
                     "2024-02-01T00:00:00.000Z" "proj_1_shop"
                     {| upd_projectId := None; upd_userId := None;
                        upd_projectName := Some "Shop <beta>";
                        upd_websiteUrl := None; upd_description := None;
                        upd_createdAt := None; upd_auditCount := None;
                        upd_latestScore := None |}
                     world_with_project) alice_project)
    as (w' & project' & Hu & Hp & _ & _ & Hn & Hc & _).
  - vm_compute. reflexivity.
  - exists w', project'. split; [exact Hu|]. split; [exact Hp|].
    split; [exact Hn|exact Hc].
Defined.

(** X21: [createProject] never throws; the project it returns has no
    audit and score 0, belongs to the given user, can be read back with
    [getProject], and its id is appended to the user's list of projects,
    whose earlier ids keep their order. *)
Theorem createProject_stores_and_lists
    now random created updated uid name url desc w :
  exists project w',
    createProject now random created updated uid name url desc w
    = (Return project, w')
    /\ project_userId project = uid
    /\ auditCount project = 0
    /\ latestScore project = Num 0
    /\ projectName project = sanitizeInput name
    /\ getProject (projectId project) w' = (Return (Some project), w')
    /\ stored_ids w' (user_projects_key uid)
       = (stored_ids w (user_projects_key uid) ++ [projectId project])%list.
Proof.
  pose proof (createProject_eq now random created updated uid name url desc w)
    as Hc.
  cbv zeta in Hc. eexists _, _. split; [exact Hc|].
  do 4 (split; [reflexivity|]).
  split.
  - rewrite getProject_eq. f_equal. f_equal.
    rewrite stored_project_write_ne by auto with keys.
    apply stored_project_write_eq.
  - apply stored_ids_write_eq.
Qed.

Lemma erase_audits_lookup_other audits : forall w key,
  not_audit_key key ->
  localStorage (erase_audits audits w) !! key = localStorage w !! key.
Proof.
  induction audits as [|a l IH]; intros w key Hk; [reflexivity|].
  change (localStorage (erase_audits l (erase (audit_key (auditId a)) w))
          !! key = localStorage w !! key).
  rewrite (IH (erase (audit_key (auditId a)) w) key Hk).
  unfold erase. cbn [localStorage].
  apply lookup_delete_ne, not_eq_sym, Hk.
Qed.

Lemma project_key_inj a b : project_key a = project_key b -> a = b.
Proof.
  unfold project_key. cbn [String.append]. intros H. injection H. auto.
Qed.

Lemma user_key_not_project u p : user_key u <> project_key p.
Proof. key_discriminate. Qed.
Lemma user_key_not_index u p : user_key u <> project_audits_key p.
Proof. key_discriminate. Qed.
Lemma user_key_not_user_projects u p : user_key u <> user_projects_key p.
Proof. key_discriminate. Qed.

(** X22: [deleteProject] takes the project's id out of the project list
    of the user it is given, keeping the other ids in their order, and
    leaves every other project record and every user record as it
    was. *)
Theorem deleteProject_spares_other_records pid uid w :
  let w' := snd (deleteProject pid uid w) in
  stored_ids w' (user_projects_key uid)
  = List.filter (fun id => negb (String.eqb id pid))
      (stored_ids w (user_projects_key uid))
  /\ (forall other, other <> pid ->
        stored_project w' other = stored_project w other)
  /\ (forall userId, stored_user w' userId = stored_user w userId).
Proof.
  cbv zeta. rewrite deleteProject_eq. cbn [snd].
  set (audits := sort_by_version_desc _).
  set (w3 := erase (project_key pid) _).
  assert (Hw3 : forall key,
             not_audit_key key -> key <> project_key pid ->
             key <> project_audits_key pid ->
             localStorage w3 !! key = localStorage w !! key).
  { intros key Hk Hp Hi. unfold w3, erase. cbn [localStorage].
    rewrite !lookup_delete_ne by (apply not_eq_sym; assumption).
    apply erase_audits_lookup_other, Hk. }
  split; [|split].
  - unfold stored_ids at 2.
    rewrite <- (Hw3 (user_projects_key uid))
      by (auto with keys; apply not_eq_sym; auto with keys).
    unfold unlist_project, stored_ids.
    destruct (localStorage w3 !! user_projects_key uid)
      as [[| | | |ids|]|] eqn:Hl; rewrite ?Hl; try reflexivity.
    unfold write. cbn [localStorage]. rewrite lookup_insert_eq. reflexivity.
  - intros other Hne. unfold stored_project.
    rewrite unlist_project_lookup_ne by auto with keys.
    rewrite Hw3; [reflexivity|auto with keys| |auto with keys].
    intros Heq. apply project_key_inj in Heq. congruence.
  - intros userId. unfold stored_user.
    rewrite unlist_project_lookup_ne by apply user_key_not_user_projects.
    rewrite Hw3; [reflexivity|auto with keys| |].
    + apply user_key_not_project.
    + apply user_key_not_index.
Qed.

(** ** What holds in every world the service gets to *)

(** X23: in every world the service gets to, the record read for an audit
    id carries that id: [getAudit] never returns the record of another
    audit. *)
Theorem stored_audits_carry_their_id
    (toLowerCase : string -> string) (JSON_parse_text : string -> ParsedText)
    (hashPassword : string -> string) w id audit :
  reachable toLowerCase JSON_parse_text hashPassword w ->
  getAudit id w = (Return (Some audit), w) ->
  auditId audit = id.
Proof.
  intros Hreach. rewrite getAudit_eq. intros [= Ha].
  unfold stored_audit in Ha.
  destruct (localStorage w !! audit_key id) as [v|] eqn:Hv;
    [|discriminate].
  destruct (reachable_keyed _ _ _ _ Hreach id v Hv) as (a & -> & Hid).
  injection Ha as <-. exact Hid.
Qed.

Lemma stored_audits_carry_their_id_witness :
  exists audit,
    getAudit "aud_2_k3x9q2m1z" world_with_audit
    = (Return (Some audit), world_with_audit)
    /\ auditId audit = "aud_2_k3x9q2m1z".
Proof.
  assert (Hreach : reachable ascii_toLowerCase sample_parse_text sample_hash
                     world_with_audit).
  { unfold world_with_audit.
    eapply reachable_step; [|apply step_saveAudit].
    eapply reachable_step; [|apply step_createProject].
    apply reachable_empty. }
  destruct (stored_audit world_with_audit "aud_2_k3x9q2m1z") as [audit|]
    eqn:Ha; [|vm_compute in Ha; discriminate Ha].
  assert (Hget : getAudit "aud_2_k3x9q2m1z" world_with_audit
                 = (Return (Some audit), world_with_audit))
    by (rewrite getAudit_eq, Ha; reflexivity).
  exists audit. split; [exact Hget|].
  exact (stored_audits_carry_their_id ascii_toLowerCase sample_parse_text
           sample_hash world_with_audit
           "aud_2_k3x9q2m1z" audit Hreach Hget).
Defined.

(** ** What a login attempt touches *)

Lemma verify_frame h now iso e password w :
  let out := verify h now iso e password w in
  (forall other, other <> e ->
     loginAttempts (snd out) !! other = loginAttempts w !! other)
  /\ (forall err, fst out = Throw err ->
        localStorage (snd out) = localStorage w)
  /\ (forall key, (forall uid, key <> user_key uid) ->
        localStorage (snd out) !! key = localStorage w !! key).
Proof.
  cbv zeta. unfold verify.
  destruct (account w e) as [[uid u]|];
    [destruct (String.eqb _ _)|]; cbn [fst snd].
  - split; [|split].
    + intros other Hne. unfold write, forget. cbn [loginAttempts].
      apply lookup_delete_ne, not_eq_sym, Hne.
    + intros err Herr. discriminate Herr.
    + intros key Hk. unfold write, forget. cbn [localStorage].
      apply lookup_insert_ne, not_eq_sym, Hk.
  - split; [|split; [reflexivity|reflexivity]].
    intros other Hne. unfold record_failure. cbn [loginAttempts].
    apply lookup_insert_ne, not_eq_sym, Hne.
  - split; [|split; [reflexivity|reflexivity]].
    intros other Hne. unfold record_failure. cbn [loginAttempts].
    apply lookup_insert_ne, not_eq_sym, Hne.
Qed.

(** X24: a login attempt for one email leaves the attempt entries of all
    other emails alone, writes no key of the store other than a user
    record, and writes nothing to the store at all when it fails. *)
Theorem loginUser_touches_one_email_and_one_user
    (toLowerCase hashPassword : string -> string) now iso address password w :
  let out := loginUser toLowerCase hashPassword now iso address password w in
  (forall other, other <> toLowerCase address ->
     loginAttempts (snd out) !! other = loginAttempts w !! other)
  /\ (forall err, fst out = Throw err ->
        localStorage (snd out) = localStorage w)
  /\ (forall key, (forall uid, key <> user_key uid) ->
        localStorage (snd out) !! key = localStorage w !! key).
Proof.
  cbv zeta. rewrite loginUser_eq, check_rate_limit_eq.
  set (e := toLowerCase address).
  pose proof (verify_frame hashPassword now iso e password w) as Hw.
  pose proof (verify_frame hashPassword now iso e password (forget e w))
    as Hf.
  cbv zeta in Hw, Hf.
  assert (Hforget : forall other, other <> e ->
             loginAttempts (forget e w) !! other = loginAttempts w !! other).
  { intros other Hne. unfold forget. cbn [loginAttempts].
    apply lookup_delete_ne, not_eq_sym, Hne. }
  destruct (loginAttempts w !! e) as [a|]; [|exact Hw].
  destruct (MAX_LOGIN_ATTEMPTS <=? count a)%nat; [|exact Hw].
  destruct (now - lastAttempt a <? LOCKOUT_DURATION).
  - cbn [fst snd]. repeat split; reflexivity.
  - destruct Hf as (Hf1 & Hf2 & Hf3). split; [|split].
    + intros other Hne. rewrite (Hf1 other Hne). apply Hforget, Hne.
    + exact Hf2.
    + exact Hf3.
Qed.

(** X25: how a failed attempt counts.  Below the threshold the count
    grows by one however long ago the last failure was (old failures do
    not expire); once the threshold is reached and the lockout has been
    served, the count starts again at one. *)
Theorem failed_attempt_count
    (toLowerCase hashPassword : string -> string) now iso address password w w' :
  loginUser toLowerCase hashPassword now iso address password w
  = (Throw InvalidEmailOrPassword, w') ->
  loginAttempts w' !! toLowerCase address
  = Some {| count :=
              match loginAttempts w !! toLowerCase address with
              | Some a =>
                  if (MAX_LOGIN_ATTEMPTS <=? count a)%nat then 1%nat
                  else (count a + 1)%nat
              | None => 1%nat
              end;
            lastAttempt := now |}.
Proof.
  rewrite loginUser_eq, check_rate_limit_eq.
  set (e := toLowerCase address).
  destruct (loginAttempts w !! e) as [a|] eqn:Ha.
  - destruct (MAX_LOGIN_ATTEMPTS <=? count a)%nat.
    + destruct (now - lastAttempt a <? LOCKOUT_DURATION); [discriminate|].
      intros Hv. apply verify_fails in Hv as [_ ->].
      unfold record_failure, forget. cbn [loginAttempts].
      rewrite lookup_insert_eq, lookup_delete_eq. reflexivity.
    + intros Hv. apply verify_fails in Hv as [_ ->].
      unfold record_failure. cbn [loginAttempts].
      rewrite lookup_insert_eq, Ha. reflexivity.
  - intros Hv. apply verify_fails in Hv as [_ ->].
    unfold record_failure. cbn [loginAttempts].
    rewrite lookup_insert_eq, Ha. reflexivity.
Qed.

Lemma failed_attempt_count_witness :
  let stale :=
    {| localStorage := localStorage world_with_account;
       loginAttempts :=
         <["alice@example.com" := {| count := 4; lastAttempt := 0 |}]> ∅ |} in
  let served :=
    {| localStorage := localStorage world_with_account;
       loginAttempts :=
         <["alice@example.com" := {| count := 5; lastAttempt := 0 |}]> ∅ |} in
  loginAttempts
    (snd (loginUser ascii_toLowerCase sample_hash (1000 * LOCKOUT_DURATION)
            "2024-03-01T00:00:00.000Z" "alice@example.com" "guess" stale))
  !! "alice@example.com"
  = Some {| count := 5; lastAttempt := 1000 * LOCKOUT_DURATION |}
  /\ loginAttempts
       (snd (loginUser ascii_toLowerCase sample_hash LOCKOUT_DURATION
               "2024-03-01T00:00:00.000Z" "alice@example.com" "guess" served))
     !! "alice@example.com"
     = Some {| count := 1; lastAttempt := LOCKOUT_DURATION |}.
Proof.
  cbv zeta. split.
  - match goal with
    | |- loginAttempts (snd (loginUser ?l ?h ?n ?i ?e ?p ?w)) !! _ = _ =>
        assert (H : loginUser l h n i e p w
                    = (Throw InvalidEmailOrPassword,
                       snd (loginUser l h n i e p w)))
          by (vm_compute; reflexivity);
        pose proof (failed_attempt_count l h n i e p w _ H) as Hc
    end.
    etransitivity; [exact Hc|vm_compute; reflexivity].
  - match goal with
    | |- loginAttempts (snd (loginUser ?l ?h ?n ?i ?e ?p ?w)) !! _ = _ =>
        assert (H : loginUser l h n i e p w
                    = (Throw InvalidEmailOrPassword,
                       snd (loginUser l h n i e p w)))
          by (vm_compute; reflexivity);
        pose proof (failed_attempt_count l h n i e p w _ H) as Hc
    end.
    etransitivity; [exact Hc|vm_compute; reflexivity].
Defined.


Section AuditInvariant.

(** A property of audit records that the JSON text of the record built by
    [saveAudit] has and that a change of notes and a passage through JSON
    text keep. *)
Variable good : AuditRecord -> Prop.
Hypothesis good_new :
  forall id pid uid version ts analyzed vs,
    good (json_audit
            (new_audit id pid uid version ts (generateAuditReport analyzed vs))).
Hypothesis good_notes : forall a text, good a -> good (set_notes a text).
Hypothesis good_json : forall a, good a -> good (json_audit a).

Lemma satisfy_write key val w :
  audit_records_satisfy good w -> not_audit_key key ->
  audit_records_satisfy good (write key val w).
Proof.
  intros Hw Hk id v. unfold write. cbn [localStorage].
  rewrite lookup_insert_ne by apply Hk. apply Hw.
Qed.

Lemma satisfy_write_audit id a w :
  audit_records_satisfy good w -> good a ->
  audit_records_satisfy good (write (audit_key id) (VAudit a) w).
Proof.
  intros Hw Ha id' v. unfold write. cbn [localStorage].
  destruct (decide (audit_key id = audit_key id')) as [Heq|Hne].
  - rewrite Heq, lookup_insert_eq. intros [= <-]. exists a. auto.
  - rewrite lookup_insert_ne by exact Hne. apply Hw.
Qed.

Lemma satisfy_erase key w :
  audit_records_satisfy good w -> audit_records_satisfy good (erase key w).
Proof.
  intros Hw id v. unfold erase. cbn [localStorage].
  intros Hl. apply lookup_delete_Some in Hl as [_ Hl]. exact (Hw id v Hl).
Qed.

Lemma audits_ret {A : Type} (a : A) : keeps_audits good (ret a).
Proof. intros w Hw. exact Hw. Qed.

Lemma audits_throw {A : Type} (e : Error) : keeps_audits good (@throw A e).
Proof. intros w Hw. exact Hw. Qed.

Lemma audits_bind {A B : Type} (m : M A) (k : A -> M B) :
  keeps_audits good m -> (forall a, keeps_audits good (k a)) ->
  keeps_audits good (bind m k).
Proof.
  intros Hm Hk w Hw. specialize (Hm w Hw). unfold bind.
  destruct (m w) as [[a|e] w1]; cbn [snd] in *; [apply Hk|]; exact Hm.
Qed.

Lemma audits_try_catch {A : Type} (m : M A) (h : Error -> M A) :
  keeps_audits good m -> (forall e, keeps_audits good (h e)) ->
  keeps_audits good (try_catch m h).
Proof.
  intros Hm Hh w Hw. specialize (Hm w Hw). unfold try_catch.
  destruct (m w) as [[a|e] w1]; cbn [snd] in *; [|apply Hh]; exact Hm.
Qed.

Lemma audits_get key : keeps_audits good (storageAPI.get key).
Proof.
  intros w Hw. unfold storageAPI.get.
  destruct (localStorage w !! key); exact Hw.
Qed.

Lemma audits_set key val :
  not_audit_key key -> keeps_audits good (storageAPI.set key val).
Proof. intros Hk w Hw. apply (satisfy_write key val w Hw Hk). Qed.

Lemma audits_delete key : keeps_audits good (storageAPI.delete key).
Proof. intros w Hw. apply (satisfy_erase key w Hw). Qed.

Lemma audits_attempts_get key : keeps_audits good (attempts.get key).
Proof. intros w Hw. exact Hw. Qed.

Lemma audits_attempts_set key a : keeps_audits good (attempts.set key a).
Proof. intros w Hw. exact Hw. Qed.

Lemma audits_attempts_delete key : keeps_audits good (attempts.delete key).
Proof. intros w Hw. exact Hw. Qed.

Lemma audits_for_of {A : Type} (l : list A) (body : A -> M unit) :
  (forall a, keeps_audits good (body a)) -> keeps_audits good (for_of l body).
Proof.
  intros Hb. induction l as [|a l IH]; cbn [for_of].
  - apply audits_ret.
  - apply audits_bind; [apply Hb|intros _; exact IH].
Qed.

Ltac audits_step :=
  match goal with
  | |- keeps_audits _ (bind _ _) => apply audits_bind; [|intros ?]
  | |- keeps_audits _ (try_catch _ _) => apply audits_try_catch; [|intros ?]
  | |- keeps_audits _ (ret _) => apply audits_ret
  | |- keeps_audits _ (throw _) => apply audits_throw
  | |- keeps_audits _ (storageAPI.get _) => apply audits_get
  | |- keeps_audits _ (storageAPI.delete _) => apply audits_delete
  | |- keeps_audits _ (storageAPI.set _ _) =>
      apply audits_set; solve [auto with keys]
  | |- keeps_audits _ (attempts.get _) => apply audits_attempts_get
  | |- keeps_audits _ (attempts.set _ _) => apply audits_attempts_set
  | |- keeps_audits _ (attempts.delete _) => apply audits_attempts_delete
  | |- keeps_audits _ (for_of _ _) => apply audits_for_of; intros ?
  | |- keeps_audits _ (match ?x with _ => _ end) => destruct x
  end.

Ltac audits := cbv zeta; unfold store_session; cbv zeta; repeat audits_step.

Lemma audits_getProject projectId : keeps_audits good (getProject projectId).
Proof. unfold getProject, JSON.parse_Project. audits. Qed.

Lemma audits_updateProject iso projectId updates :
  keeps_audits good (updateProject iso projectId updates).
Proof.
  unfold updateProject. apply audits_bind; [apply audits_getProject|].
  intros [p|]; audits.
Qed.

Lemma audits_getProjectAudits projectId :
  keeps_audits good (getProjectAudits projectId).
Proof. intros w Hw. rewrite getProjectAudits_eq. exact Hw. Qed.

Ltac as_keeps_audits :=
  match goal with
  | |- forall w, audit_records_satisfy ?g w ->
                 audit_records_satisfy ?g (snd (?m w)) =>
      change (keeps_audits g m)
  end.

Lemma step_keeps_audits lower parse h w w' :
  step lower parse h w w' ->
  audit_records_satisfy good w -> audit_records_satisfy good w'.
Proof.
  intros Hstep. destruct Hstep; revert w.
  - as_keeps_audits. unfold createUser. audits.
  - as_keeps_audits.
    unfold loginUser, check_rate_limit, raw_value, JSON.parse_User. audits.
  - as_keeps_audits.
    unfold getCurrentUser, logout, raw_value, JSON.parse_User. audits.
  - as_keeps_audits. unfold setCurrentUser. audits.
  - as_keeps_audits. unfold logout. audits.
  - as_keeps_audits. unfold createProject, JSON.parse_ids. audits.
  - apply audits_updateProject.
  - as_keeps_audits. unfold deleteProject, JSON.parse_ids.
    apply audits_bind; [apply audits_getProjectAudits|]. intros l. audits.
  - as_keeps_audits. unfold saveAudit, JSON.parse_ids.
    apply audits_bind; [apply audits_getProject|].
    intros [p|]; [|audits].
    destruct (negb _); [audits|]. cbv zeta.
    apply audits_bind.
    { intros w Hw. apply (satisfy_write_audit _ _ w Hw). apply good_new. }
    intros _. apply audits_bind; [audits|].
    intros _. apply audits_bind; [apply audits_updateProject|].
    intros _. audits.
  - intros w Hw. unfold updateAuditNotes, bind, storageAPI.get.
    match goal with
    | |- context [localStorage w !! audit_key ?i] =>
        destruct (localStorage w !! audit_key i) as [v|] eqn:Hv;
          [|exact Hw];
        destruct (Hw i v Hv) as (a & -> & Ha);
        cbn [JSON.parse_AuditRecord ret storageAPI.set snd];
        apply (satisfy_write_audit i _ w Hw)
    end.
    apply good_json, good_notes, good_json, Ha.
  - as_keeps_audits. unfold deleteAudit, JSON.parse_ids. audits.
Qed.

Lemma reachable_audits_satisfy lower parse h w :
  reachable lower parse h w -> audit_records_satisfy good w.
Proof.
  induction 1 as [|w w' _ IH Hstep].
  - intros id v. cbn [empty_world localStorage]. rewrite lookup_empty.
    discriminate.
  - exact (step_keeps_audits lower parse h w w' Hstep IH).
Qed.

End AuditInvariant.

Lemma self_consistent_json a :
  self_consistent a -> self_consistent (json_audit a).
Proof.
  unfold self_consistent. cbv zeta.
  cbn [json_audit json_report fullReport violations accessibilityScore
         overall_score wcag_compliance wcagCompliance totalViolations summary].
  intros (Hs & Ho & Hrest). rewrite Hs, Ho, JSON_number_idem.
  split; [reflexivity|]. split; [reflexivity|]. exact Hrest.
Qed.

(** X26: in every world the service gets to, every audit record that can
    be read agrees with the scoring engine run on the violations of its
    own full report: compliance flags and counts are never out of step
    with the stored violation list, and the two scores are the engine's
    score, read back as [null] where the engine gives [NaN]. *)
Theorem stored_audits_are_self_consistent
    (toLowerCase : string -> string) (JSON_parse_text : string -> ParsedText)
    (hashPassword : string -> string) w id audit :
  reachable toLowerCase JSON_parse_text hashPassword w ->
  getAudit id w = (Return (Some audit), w) ->
  self_consistent audit
  /\ (calculateAccessibilityScore (violations (fullReport audit)) <> NaN ->
      accessibilityScore audit
      = calculateAccessibilityScore (violations (fullReport audit))
      /\ overall_score (fullReport audit)
         = calculateAccessibilityScore (violations (fullReport audit)))
  /\ (calculateAccessibilityScore (violations (fullReport audit)) = NaN ->
      accessibilityScore audit = Null
      /\ overall_score (fullReport audit) = Null).
Proof.
  intros Hreach. rewrite getAudit_eq. intros [= Ha].
  unfold stored_audit in Ha.
  destruct (localStorage w !! audit_key id) as [v|] eqn:Hv;
    [|discriminate].
  assert (Hall : audit_records_satisfy self_consistent w).
  { apply (reachable_audits_satisfy self_consistent)
      with (lower := toLowerCase) (parse := JSON_parse_text)
           (h := hashPassword); [| | |exact Hreach].
    - intros. unfold self_consistent. cbv zeta.
      cbn [json_audit json_report fullReport new_audit violations
             generateAuditReport accessibilityScore overall_score
             wcag_compliance wcagCompliance levelA levelAA levelAAA
             totalViolations summary total_violations].
      repeat split; reflexivity.
    - intros a text Hgood. exact Hgood.
    - apply self_consistent_json. }
  destruct (Hall id v Hv) as (a & -> & Hgood).
  injection Ha as <-. apply self_consistent_json in Hgood.
  split; [exact Hgood|].
  destruct Hgood as (Hs & Ho & _). cbv zeta in Hs, Ho.
  split.
  - intros Hnum. rewrite Hs, Ho, (JSON_number_id _ Hnum). split; reflexivity.
  - intros HNaN. rewrite Hs, Ho, HNaN. split; reflexivity.
Qed.

Lemma stored_audits_are_self_consistent_witness :
  exists audit,
    getAudit "aud_2_k3x9q2m1z" world_with_audit
    = (Return (Some audit), world_with_audit)
    /\ overall_score forged_report = Num 100
    /\ accessibilityScore audit = Num 85
    /\ self_consistent audit.
Proof.
  assert (Hreach : reachable ascii_toLowerCase sample_parse_text sample_hash
                     world_with_audit).
  { unfold world_with_audit.
    eapply reachable_step; [|apply step_saveAudit].
    eapply reachable_step; [|apply step_createProject].
    apply reachable_empty. }
  destruct (stored_audit world_with_audit "aud_2_k3x9q2m1z") as [audit|]
    eqn:Ha; [|vm_compute in Ha; discriminate Ha].
  assert (Hget : getAudit "aud_2_k3x9q2m1z" world_with_audit
                 = (Return (Some audit), world_with_audit))
    by (rewrite getAudit_eq, Ha; reflexivity).
  exists audit. split; [exact Hget|]. split; [reflexivity|].
  split.
  - vm_compute in Ha. injection Ha as <-. reflexivity.
  - exact (proj1 (stored_audits_are_self_consistent ascii_toLowerCase
                    sample_parse_text sample_hash world_with_audit
                    "aud_2_k3x9q2m1z" audit Hreach Hget)).
Defined.

(** ** The score and the summary *)

Lemma spec_weight_by_flags v :
  spec_weight (severity v)
  = 15 * Z.b2z (has_severity Severity.CRITICAL v)
    + 8 * Z.b2z (has_severity Severity.HIGH v)
    + 4 * Z.b2z (has_severity Severity.MEDIUM v)
    + 2 * Z.b2z (has_severity Severity.LOW v).
Proof.
  unfold spec_weight, has_severity, Severity.CRITICAL, Severity.HIGH,
    Severity.MEDIUM, Severity.LOW.
  destruct (severity v) as [s|]; [|reflexivity].
  destruct (String.eqb s "critical") eqn:Hc;
    [apply String.eqb_eq in Hc; subst s; reflexivity|].
  destruct (String.eqb s "high") eqn:Hh;
    [apply String.eqb_eq in Hh; subst s; reflexivity|].
  destruct (String.eqb s "medium") eqn:Hm;
    [apply String.eqb_eq in Hm; subst s; reflexivity|].
  destruct (String.eqb s "low"); reflexivity.
Qed.

Lemma spec_penalty_by_counts violations :
  spec_penalty violations
  = 15 * Z.of_nat (length (List.filter (has_severity Severity.CRITICAL)
                             violations))
    + 8 * Z.of_nat (length (List.filter (has_severity Severity.HIGH)
                              violations))
    + 4 * Z.of_nat (length (List.filter (has_severity Severity.MEDIUM)
                              violations))
    + 2 * Z.of_nat (length (List.filter (has_severity Severity.LOW)
                              violations)).
Proof.
  induction violations as [|v vs IH]; [reflexivity|].
  change (spec_penalty (v :: vs))
    with (spec_weight (severity v) + spec_penalty vs).
  rewrite IH, spec_weight_by_flags. cbn [List.filter].
  destruct (has_severity Severity.CRITICAL v),
    (has_severity Severity.HIGH v), (has_severity Severity.MEDIUM v),
    (has_severity Severity.LOW v); cbn [length Z.b2z]; lia.
Qed.

(** X27: the score of a report can be recomputed from its summary: when
    no severity names an inherited property, it is 100 minus 15, 8, 4 and
    2 points per critical, high, medium and low violation counted in the
    summary, and not less than 0. *)
Theorem report_score_follows_from_summary (analyzedAt : string)
    (violations : list Violation) :
  Forall plain_severity violations ->
  let report := generateAuditReport analyzedAt violations in
  overall_score report
  = Num (Z.max 0
           (100 - (15 * Z.of_nat (critical (summary report))
                   + 8 * Z.of_nat (high (summary report))
                   + 4 * Z.of_nat (medium (summary report))
                   + 2 * Z.of_nat (low (summary report))))).
Proof.
  intros Hall. cbv zeta.
  cbn [overall_score summary generateAuditReport critical high medium low].
  rewrite (score_plain _ Hall). unfold spec_score.
  rewrite spec_penalty_by_counts. reflexivity.
Qed.

Lemma report_score_follows_from_summary_witness :
  let report :=
    generateAuditReport "2024-01-02T10:00:00.000Z"
      [ violation_of (Some "critical") "1.1.1";
        violation_of (Some "high") "1.4.3";
        violation_of (Some "high") "2.4.7";
        violation_of (Some "note") "3.1.2" ] in
  summary report
  = {| total_violations := 4; critical := 1; high := 2; medium := 0;
       low := 0 |}
  /\ overall_score report = Num 69.
Proof.
  cbv zeta. split; [reflexivity|].
  apply (report_score_follows_from_summary "2024-01-02T10:00:00.000Z"
           [ violation_of (Some "critical") "1.1.1";
             violation_of (Some "high") "1.4.3";
             violation_of (Some "high") "2.4.7";
             violation_of (Some "note") "3.1.2" ]).
  repeat constructor.
Defined.

(** ** Deleting an audit and saving again *)



